(** * Cash_Ride frontend: ride lifecycle synchronisation layer

    A shallow embedding of the stores, the socket service, the page
    handlers, the geolocation hook and the place-search box of the
    Cash_Ride web client, with the properties of its specification
    stated and settled against the embedding. *)

From Stdlib Require Import ZArith String List Floats Lia.
From stdpp Require Import base gmap strings pretty list.

Local Open Scope string_scope.
Local Open Scope list_scope.
Local Set Warnings "-register-all,-inexact-float".

(* ===================================================================== *)
(** ** JavaScript values *)
(* ===================================================================== *)

Module Js.

(** The values exchanged with the backend and kept in the stores:
    primitives and plain objects (a finite map from property names to
    values).  Numbers are IEEE doubles. *)
Inductive jsval : Type :=
| JUndefined
| JNull
| JBool (b : bool)
| JNum (x : float)
| JStr (s : string)
| JObj (fields : gmap string jsval).

(** ToBoolean: [undefined], [null], [false], [0], [-0], [NaN] and the empty
    string are falsy; every object is truthy. *)
Definition truthy (v : jsval) : bool :=
  match v with
  | JUndefined | JNull => false
  | JBool b => b
  | JNum x => negb (PrimFloat.eqb x 0%float) && negb (PrimFloat.is_nan x)
  | JStr s => negb (String.eqb s "")
  | JObj _ => true
  end.

(** Own enumerable properties of a string: one per character, keyed by
    its decimal index. *)
Fixpoint string_props (i : nat) (s : string) : gmap string jsval :=
  match s with
  | EmptyString => ∅
  | String c s' => <[pretty i := JStr (String c EmptyString)]> (string_props (S i) s')
  end.

(** Object spread [{ ...v }]: the own enumerable properties of [v];
    [null], [undefined], booleans and numbers contribute none. *)
Definition spread (v : jsval) : gmap string jsval :=
  match v with
  | JObj fields => fields
  | JStr s => string_props 0 s
  | _ => ∅
  end.

(** Property read [v.k] on a value known to be an object; a missing
    property reads as [undefined]. *)
Definition prop (k : string) (fields : gmap string jsval) : jsval :=
  default JUndefined (fields !! k).

End Js.
Import Js.

(* ===================================================================== *)
(** ** utils/constants.js *)
(* ===================================================================== *)

Module RIDE_STATUS.
Definition REQUESTED : string := "requested".
Definition ACCEPTED : string := "accepted".
Definition IN_PROGRESS : string := "in_progress".
Definition COMPLETED : string := "completed".
Definition CANCELLED : string := "cancelled".
End RIDE_STATUS.

(* ===================================================================== *)
(** ** store/rideStore.js *)
(* ===================================================================== *)

Module RideStore.

Record state : Type := mk {
  currentRide : jsval;
  rideHistory : list jsval;
  nearbyDrivers : list jsval
}.

(** [create((set) => ({ currentRide: null, rideHistory: [], nearbyDrivers: [] ... }))] *)
Definition initial : state :=
  {| currentRide := JNull; rideHistory := []; nearbyDrivers := [] |}.

(** [set(partial)] merges the given keys into the state; the helpers below
    are the three single-key merges the store uses. *)
Definition set_currentRide (v : jsval) (st : state) : state :=
  {| currentRide := v; rideHistory := rideHistory st; nearbyDrivers := nearbyDrivers st |}.
Definition set_rideHistory (h : list jsval) (st : state) : state :=
  {| currentRide := currentRide st; rideHistory := h; nearbyDrivers := nearbyDrivers st |}.
Definition set_nearbyDrivers (d : list jsval) (st : state) : state :=
  {| currentRide := currentRide st; rideHistory := rideHistory st; nearbyDrivers := d |}.

(** [setCurrentRide: (ride) => set({ currentRide: ride })] *)
Definition setCurrentRide (ride : jsval) (st : state) : state :=
  set_currentRide ride st.

(** [updateRideStatus: (status) => set((state) => ({ currentRide:
      state.currentRide ? { ...state.currentRide, status } : null }))] *)
Definition updateRideStatus (status : jsval) (st : state) : state :=
  set_currentRide
    (if truthy (currentRide st)
     then JObj (<["status" := status]> (spread (currentRide st)))
     else JNull)
    st.

(** [setNearbyDrivers: (drivers) => set({ nearbyDrivers: drivers })] *)
Definition setNearbyDrivers (drivers : list jsval) (st : state) : state :=
  set_nearbyDrivers drivers st.

(** [addToHistory: (ride) => set((state) => ({ rideHistory: [ride, ...state.rideHistory] }))] *)
Definition addToHistory (ride : jsval) (st : state) : state :=
  set_rideHistory (ride :: rideHistory st) st.

(** [clearCurrentRide: () => set({ currentRide: null })] *)
Definition clearCurrentRide (st : state) : state :=
  set_currentRide JNull st.

(** A property of the current ride, when the store holds a ride object
    that has it; its status in particular. *)
Definition ride_field (k : string) (st : state) : option jsval :=
  match currentRide st with
  | JObj fields => fields !! k
  | _ => None
  end.

Definition ride_status (st : state) : option jsval := ride_field "status" st.

(** A run of [updateRideStatus] calls, oldest first. *)
Definition updateRideStatus_all (statuses : list jsval) (st : state) : state :=
  foldl (fun acc s => updateRideStatus s acc) st statuses.

End RideStore.

(* ===================================================================== *)
(** ** The status order of the specification *)
(* ===================================================================== *)

Module StatusOrder.
Import RIDE_STATUS.

(** Position of a status in the normal progression
    Requested < Accepted < InProgress < Completed, as the specification
    words it; Cancelled has no position. *)
Definition rank (s : string) : option nat :=
  if String.eqb s REQUESTED then Some 0
  else if String.eqb s ACCEPTED then Some 1
  else if String.eqb s IN_PROGRESS then Some 2
  else if String.eqb s COMPLETED then Some 3
  else None.

(** The transitions the specification lets through: the same status
    again, a move forward in the progression, and Cancelled from
    Requested or Accepted. *)
Definition permitted (old new : string) : bool :=
  if String.eqb new CANCELLED
  then String.eqb old REQUESTED || String.eqb old ACCEPTED || String.eqb old CANCELLED
  else match rank old, rank new with
       | Some i, Some j => Nat.leb i j
       | _, _ => false
       end.

End StatusOrder.

(* ===================================================================== *)
(** ** store/locationStore.js *)
(* ===================================================================== *)

Module LocationStore.

Record state : Type := mk {
  currentLocation : jsval;
  pickupLocation : jsval;
  dropoffLocation : jsval
}.

Definition initial : state :=
  {| currentLocation := JNull; pickupLocation := JNull; dropoffLocation := JNull |}.

(** [setCurrentLocation: (location) => set({ currentLocation: location })] *)
Definition setCurrentLocation (location : jsval) (st : state) : state :=
  {| currentLocation := location;
     pickupLocation := pickupLocation st;
     dropoffLocation := dropoffLocation st |}.

(** [setPickupLocation: (location) => set({ pickupLocation: location })] *)
Definition setPickupLocation (location : jsval) (st : state) : state :=
  {| currentLocation := currentLocation st;
     pickupLocation := location;
     dropoffLocation := dropoffLocation st |}.

(** [setDropoffLocation: (location) => set({ dropoffLocation: location })] *)
Definition setDropoffLocation (location : jsval) (st : state) : state :=
  {| currentLocation := currentLocation st;
     pickupLocation := pickupLocation st;
     dropoffLocation := location |}.

(** [clearLocations: () => set({ pickupLocation: null, dropoffLocation: null })] *)
Definition clearLocations (st : state) : state :=
  {| currentLocation := currentLocation st;
     pickupLocation := JNull;
     dropoffLocation := JNull |}.

End LocationStore.

(* ===================================================================== *)
(** ** services/socket.service.js *)
(* ===================================================================== *)

(** The functions this client hands to the socket as listeners.  A
    JavaScript function is compared by reference, so a caller-supplied
    callback is named by a number. *)
Inductive listener : Type :=
| LogConnected                (* () => console.log('Socket connected:', this.socket.id) *)
| LogDisconnected             (* () => console.log('Socket disconnected') *)
| RideUpdate                  (* (data) => setRide(prev => ({ ...prev, ...data })) *)
| DriverLocation              (* (location) => setDriver(prev => ({ ...prev, location })) *)
| Callback (ref : nat).

(** The part of a socket.io-client [Socket] the service relies on.  It is
    an event emitter: [on] appends the listener to those already
    registered for the event, [off(event)] drops every listener of the
    event, and an inbound event runs the listeners of its name in
    registration order.  [io(url, opts)] always yields a new socket that
    starts connecting at once; [disconnect()] closes that one socket. *)
Module Transport.

Record sock : Type := mk {
  auth_token : jsval;
  is_open : bool;
  listeners : list (string * listener);
  sent : list (string * jsval)
}.

Definition fresh (token : jsval) : sock :=
  {| auth_token := token; is_open := true; listeners := []; sent := [] |}.

Definition on (event : string) (callback : listener) (s : sock) : sock :=
  {| auth_token := auth_token s; is_open := is_open s;
     listeners := listeners s ++ [(event, callback)];
     sent := sent s |}.

Definition off (event : string) (s : sock) : sock :=
  {| auth_token := auth_token s; is_open := is_open s;
     listeners := filter (fun l => negb (String.eqb (fst l) event)) (listeners s);
     sent := sent s |}.

Definition emit (event : string) (data : jsval) (s : sock) : sock :=
  {| auth_token := auth_token s; is_open := is_open s;
     listeners := listeners s;
     sent := sent s ++ [(event, data)] |}.

Definition disconnect (s : sock) : sock :=
  {| auth_token := auth_token s; is_open := false;
     listeners := listeners s;
     sent := sent s |}.

(** The listeners an inbound [event] runs, in order. *)
Definition handlers_of (event : string) (s : sock) : list listener :=
  map snd (filter (fun l => String.eqb (fst l) event) (listeners s)).

End Transport.

Module SocketService.

(** [this.socket] is a reference: the sockets themselves live in the
    process, whether or not the service still points at them. *)
Record state : Type := mk {
  socket : option nat;
  sockets : list Transport.sock
}.

(** [constructor() { this.socket = null }], in a process without sockets. *)
Definition initial : state := {| socket := None; sockets := [] |}.

(** [io(import.meta.env.VITE_SOCKET_URL, { auth: { token } })] *)
Definition io (token : jsval) (st : state) : nat * state :=
  (length (sockets st),
   {| socket := socket st; sockets := sockets st ++ [Transport.fresh token] |}).

(** A method call on the socket that [this.socket] points at. *)
Definition on_this (f : Transport.sock → Transport.sock) (st : state) : state :=
  match socket st with
  | Some i => {| socket := socket st; sockets := alter f i (sockets st) |}
  | None => st
  end.

(** [connect(token) { this.socket = io(...); this.socket.on('connect', ...);
      this.socket.on('disconnect', ...); return this.socket }] *)
Definition connect (token : jsval) (st : state) : nat * state :=
  let '(i, st1) := io token st in
  let st2 := {| socket := Some i; sockets := sockets st1 |} in
  let st3 := on_this (Transport.on "connect" LogConnected) st2 in
  let st4 := on_this (Transport.on "disconnect" LogDisconnected) st3 in
  (i, st4).

(** [disconnect() { if (this.socket) { this.socket.disconnect(); this.socket = null } }] *)
Definition disconnect (st : state) : state :=
  match socket st with
  | Some _ =>
      let st1 := on_this Transport.disconnect st in
      {| socket := None; sockets := sockets st1 |}
  | None => st
  end.

(** [emit(event, data) { if (this.socket) { this.socket.emit(event, data) } }] *)
Definition emit (event : string) (data : jsval) (st : state) : state :=
  match socket st with
  | Some _ => on_this (Transport.emit event data) st
  | None => st
  end.

(** [on(event, callback) { if (this.socket) { this.socket.on(event, callback) } }] *)
Definition on (event : string) (callback : listener) (st : state) : state :=
  match socket st with
  | Some _ => on_this (Transport.on event callback) st
  | None => st
  end.

(** [off(event) { if (this.socket) { this.socket.off(event) } }] *)
Definition off (event : string) (st : state) : state :=
  match socket st with
  | Some _ => on_this (Transport.off event) st
  | None => st
  end.

(** The sockets of the process that have not been closed. *)
Definition active (st : state) : list Transport.sock :=
  filter (fun s => Transport.is_open s) (sockets st).

(** The socket [this.socket] points at, if any. *)
Definition current (st : state) : option Transport.sock :=
  match socket st with
  | Some i => sockets st !! i
  | None => None
  end.

(** The listeners an inbound [event] on the service's socket runs. *)
Definition handlers_of (event : string) (st : state) : list listener :=
  match current st with
  | Some s => Transport.handlers_of event s
  | None => []
  end.

End SocketService.

(* ===================================================================== *)
(** ** Handlers: state, exceptions and the outside world *)
(* ===================================================================== *)

Module Effects.

(** How a promise settles, and how a block of statements ends. *)
Inductive outcome (A : Type) : Type :=
| Fulfilled (a : A)
| Rejected (error : jsval).
Arguments Fulfilled {A} a.
Arguments Rejected {A} error.

Inductive method : Type := GET | POST.

Record request : Type := Request {
  verb : method;
  url : string;
  payload : option jsval
}.

(** The axios response; only its [data] is read. *)
Record response : Type := Response { data : jsval }.

(** The REST backend as the client meets it: each call settles one way
    or the other. *)
Definition backend : Type := request → outcome response.

(** What a handler does to the world outside the stores. *)
Inductive effect : Type :=
| Called (r : request)
| Navigated (to : string)
| ConsoleError (message : string) (detail : jsval).

(** The stores, the socket service, the trace of outside effects and
    the [useState] cells of the page the handler belongs to. *)
Record world (L : Type) : Type := World {
  rideStore : RideStore.state;
  locationStore : LocationStore.state;
  socketService : SocketService.state;
  trace : list effect;
  page : L
}.
Arguments World {L} _ _ _ _ _.
Arguments rideStore {L} _.
Arguments locationStore {L} _.
Arguments socketService {L} _.
Arguments trace {L} _.
Arguments page {L} _.

(** A handler body: it runs on a world and ends normally or by throwing;
    what it did before a throw stays done. *)
Definition M (L A : Type) : Type := world L → outcome A * world L.

Definition ret {L A} (a : A) : M L A := fun w => (Fulfilled a, w).

Definition bind {L A B} (m : M L A) (k : A → M L B) : M L B :=
  fun w =>
    match m w with
    | (Fulfilled a, w') => k a w'
    | (Rejected e, w') => (Rejected e, w')
    end.

Definition throw {L A} (e : jsval) : M L A := fun w => (Rejected e, w).

(** [try { m } catch (error) { handler error }] *)
Definition try_catch {L A} (m : M L A) (handler : jsval → M L A) : M L A :=
  fun w =>
    match m w with
    | (Fulfilled a, w') => (Fulfilled a, w')
    | (Rejected e, w') => handler e w'
    end.

(** [try { m } finally { cleanup }] *)
Definition try_finally {L A} (m : M L A) (cleanup : M L unit) : M L A :=
  fun w =>
    match m w with
    | (r, w') =>
        match cleanup w' with
        | (Fulfilled _, w'') => (r, w'')
        | (Rejected e, w'') => (Rejected e, w'')
        end
    end.

Definition gets {L A} (f : world L → A) : M L A := fun w => (Fulfilled (f w), w).

Definition modify {L} (f : world L → world L) : M L unit :=
  fun w => (Fulfilled tt, f w).

Definition with_rideStore {L} (f : RideStore.state → RideStore.state) (w : world L) : world L :=
  World (f (rideStore w)) (locationStore w) (socketService w) (trace w) (page w).
Definition with_locationStore {L} (f : LocationStore.state → LocationStore.state) (w : world L) : world L :=
  World (rideStore w) (f (locationStore w)) (socketService w) (trace w) (page w).
Definition with_socketService {L} (f : SocketService.state → SocketService.state) (w : world L) : world L :=
  World (rideStore w) (locationStore w) (f (socketService w)) (trace w) (page w).
Definition with_page {L} (f : L → L) (w : world L) : world L :=
  World (rideStore w) (locationStore w) (socketService w) (trace w) (f (page w)).
Definition record {L} (e : effect) (w : world L) : world L :=
  World (rideStore w) (locationStore w) (socketService w) (trace w ++ [e]) (page w).

(** The world a handler leaves behind. *)
Definition exec {L A} (m : M L A) (w : world L) : world L := snd (m w).

End Effects.
Import Effects.

Declare Scope handler_scope.
Delimit Scope handler_scope with handler.
Notation "'let*' x ':=' m 'in' k" := (bind m (fun x => k))
  (at level 10, x name, m at level 100, k at level 200) : handler_scope.
Notation "m ';;' k" := (bind m (fun _ => k))
  (at level 100, k at level 200, right associativity) : handler_scope.
Local Open Scope handler_scope.

Module Runtime.

(** The error a property read on [null] or [undefined] throws. *)
Definition TypeError : jsval := JObj (<["name" := JStr "TypeError"]> ∅).

(** [v.k] for the data properties this client reads ([lat], [id],
    [ride], ...): a throw on [null] and [undefined], the property of an
    object, [undefined] on any other primitive. *)
Definition member {L} (v : jsval) (k : string) : M L jsval :=
  match v with
  | JUndefined | JNull => throw TypeError
  | JObj fields => ret (prop k fields)
  | _ => ret JUndefined
  end.

(** [v?.k] *)
Definition member_opt (v : jsval) (k : string) : jsval :=
  match v with
  | JObj fields => prop k fields
  | _ => JUndefined
  end.

(** ToString inside a template literal.  How a number prints is the
    engine's business and comes in as [number_to_string]. *)
Definition to_string (number_to_string : float → string) (v : jsval) : string :=
  match v with
  | JUndefined => "undefined"
  | JNull => "null"
  | JBool true => "true"
  | JBool false => "false"
  | JNum x => number_to_string x
  | JStr s => s
  | JObj _ => "[object Object]"
  end.

(** [await api.post(url, body)] and [await api.get(url)]: the call goes
    out, and the handler resumes with the response or with a throw. *)
Definition api_call {L} (api : backend) (r : request) : M L response :=
  modify (record (Called r)) ;;
  match api r with
  | Fulfilled resp => ret resp
  | Rejected e => throw e
  end.

Definition navigate {L} (to : string) : M L unit := modify (record (Navigated to)).

Definition console_error {L} (message : string) (detail : jsval) : M L unit :=
  modify (record (ConsoleError message detail)).

End Runtime.
Import Runtime.

(* ===================================================================== *)
(** ** services/ride.service.js *)
(* ===================================================================== *)

Module rideService.
Section WithBackend.
Context {L : Type} (api : backend).

Definition requestRide (rideData : jsval) : M L jsval :=
  let* response := api_call api (Request POST "/rides/request" (Some rideData)) in
  ret (data response).

Definition getRideStatus (rideId : string) : M L jsval :=
  let* response := api_call api (Request GET ("/rides/" +:+ rideId +:+ "/status") None) in
  ret (data response).

Definition cancelRide (rideId : string) : M L jsval :=
  let* response := api_call api (Request POST ("/rides/" +:+ rideId +:+ "/cancel") None) in
  ret (data response).

Definition getRideHistory : M L jsval :=
  let* response := api_call api (Request GET "/rides/history" None) in
  ret (data response).

Definition acceptRide (rideId : string) : M L jsval :=
  let* response := api_call api (Request POST ("/rides/" +:+ rideId +:+ "/accept") None) in
  ret (data response).

Definition startRide (rideId : string) : M L jsval :=
  let* response := api_call api (Request POST ("/rides/" +:+ rideId +:+ "/start") None) in
  ret (data response).

Definition completeRide (rideId : string) : M L jsval :=
  let* response := api_call api (Request POST ("/rides/" +:+ rideId +:+ "/complete") None) in
  ret (data response).

Definition estimateFare (pickupLocation dropoffLocation : jsval) : M L jsval :=
  let* pickup_lat := member pickupLocation "lat" in
  let* pickup_lng := member pickupLocation "lng" in
  let* dest_lat := member dropoffLocation "lat" in
  let* dest_lng := member dropoffLocation "lng" in
  let* response :=
    api_call api
      (Request POST "/location/estimate-fare"
         (Some (JObj (<["pickup_latitude" := pickup_lat]>
                     (<["pickup_longitude" := pickup_lng]>
                     (<["destination_latitude" := dest_lat]>
                     (<["destination_longitude" := dest_lng]> ∅))))))) in
  ret (data response).

End WithBackend.
End rideService.

(* ===================================================================== *)
(** ** pages/passenger/BookRide *)
(* ===================================================================== *)

Module BookRide.

(** The page's [useState] cells. *)
Record state : Type := mk {
  estimatedFare : jsval;
  loading : bool;
  step : nat
}.

Definition initial : state := {| estimatedFare := JNull; loading := false; step := 1 |}.

Definition setEstimatedFare (v : jsval) (st : state) : state :=
  {| estimatedFare := v; loading := loading st; step := step st |}.
Definition setLoading (b : bool) (st : state) : state :=
  {| estimatedFare := estimatedFare st; loading := b; step := step st |}.
Definition setStep (n : nat) (st : state) : state :=
  {| estimatedFare := estimatedFare st; loading := loading st; step := n |}.

Section Handlers.
Context (number_to_string : float → string) (api : backend).

(** [handleEstimateFare]; the two locations are the ones of the render the
    handler was made in. *)
Definition handleEstimateFare : M state unit :=
  let* pickupLocation := gets (fun w => LocationStore.pickupLocation (locationStore w)) in
  let* dropoffLocation := gets (fun w => LocationStore.dropoffLocation (locationStore w)) in
  if negb (truthy pickupLocation) || negb (truthy dropoffLocation) then ret tt
  else
    modify (with_page (setLoading true)) ;;
    try_finally
      (try_catch
         (let* data := rideService.estimateFare api pickupLocation dropoffLocation in
          let* fare := member data "estimated_fare" in
          modify (with_page (setEstimatedFare fare)) ;;
          modify (with_page (setStep 2)))
         (fun error => console_error "Failed to estimate fare:" error))
      (modify (with_page (setLoading false))).

(** [handleConfirmBooking] *)
Definition handleConfirmBooking : M state unit :=
  let* pickupLocation := gets (fun w => LocationStore.pickupLocation (locationStore w)) in
  let* dropoffLocation := gets (fun w => LocationStore.dropoffLocation (locationStore w)) in
  modify (with_page (setLoading true)) ;;
  try_finally
    (try_catch
       (let* pickup_latitude := member pickupLocation "lat" in
        let* pickup_longitude := member pickupLocation "lng" in
        let* pickup_address := member pickupLocation "address" in
        let* destination_latitude := member dropoffLocation "lat" in
        let* destination_longitude := member dropoffLocation "lng" in
        let* destination_address := member dropoffLocation "address" in
        let* ride :=
          rideService.requestRide api
            (JObj (<["pickup_latitude" := pickup_latitude]>
                  (<["pickup_longitude" := pickup_longitude]>
                  (<["pickup_address" := pickup_address]>
                  (<["destination_latitude" := destination_latitude]>
                  (<["destination_longitude" := destination_longitude]>
                  (<["destination_address" := destination_address]> ∅))))))) in
        modify (with_rideStore (RideStore.setCurrentRide ride)) ;;
        let* id := member ride "id" in
        navigate ("/ride/" +:+ to_string number_to_string id))
       (fun error => console_error "Failed to book ride:" error))
    (modify (with_page (setLoading false))).

End Handlers.
End BookRide.

(* ===================================================================== *)
(** ** pages/passenger/RideTracking and hooks/useSocket *)
(* ===================================================================== *)

Module RideTracking.
Import RIDE_STATUS.

Record state : Type := mk {
  ride : jsval;
  driver : jsval;
  showCancelModal : bool;
  loading : bool
}.

Definition initial : state :=
  {| ride := JNull; driver := JNull; showCancelModal := false; loading := true |}.

Definition setRide (v : jsval) (st : state) : state :=
  {| ride := v; driver := driver st; showCancelModal := showCancelModal st; loading := loading st |}.
Definition setDriver (v : jsval) (st : state) : state :=
  {| ride := ride st; driver := v; showCancelModal := showCancelModal st; loading := loading st |}.
Definition setShowCancelModal (b : bool) (st : state) : state :=
  {| ride := ride st; driver := driver st; showCancelModal := b; loading := loading st |}.
Definition setLoading (b : bool) (st : state) : state :=
  {| ride := ride st; driver := driver st; showCancelModal := showCancelModal st; loading := b |}.

(** [ride.status === s] for a string constant [s]. *)
Definition status_is (s : string) (st : state) : bool :=
  match member_opt (ride st) "status" with
  | JStr x => String.eqb x s
  | _ => false
  end.

(** The render returns the spinner under [if (loading)] and the "Ride not
    found" card under [if (!ride)]; only past both does it reach the
    ride's own markup. *)
Definition ride_shown (st : state) : bool :=
  negb (loading st) && truthy (ride st).

(** The Cancel Ride button is rendered under
    [(ride.status === REQUESTED || ride.status === ACCEPTED)]; it opens the
    confirmation, whose Yes button runs [handleCancelRide]. *)
Definition cancel_button_shown (st : state) : bool :=
  ride_shown st && (status_is REQUESTED st || status_is ACCEPTED st).

(** The confirmation is rendered whenever [showCancelModal] is set. *)
Definition confirmation_shown (st : state) : bool :=
  ride_shown st && showCancelModal st.

(** The two topics of the subscription effect; [ride] is the cell's value
    in the render the effect was made in. *)
Definition ride_topic (rideId : string) : string := "ride_" +:+ rideId +:+ "_update".
Definition driver_topic (number_to_string : float → string) (ride : jsval) : string :=
  "driver_" +:+ to_string number_to_string (member_opt ride "driver_id") +:+ "_location".

Section Handlers.
Context (number_to_string : float → string) (api : backend) (rideId : string).

(** [loadRideDetails] *)
Definition loadRideDetails : M state unit :=
  try_finally
    (try_catch
       (let* data := rideService.getRideStatus api rideId in
        let* r := member data "ride" in
        modify (with_page (setRide r)) ;;
        let* d := member data "driver" in
        modify (with_page (setDriver d)))
       (fun error => console_error "Failed to load ride:" error))
    (modify (with_page (setLoading false))).

(** The body of the [useEffect] on [rideId], after [loadRideDetails()] was
    started: the two [socket.on] calls. *)
Definition subscribe : M state unit :=
  let* ride := gets (fun w => ride (page w)) in
  modify (with_socketService (SocketService.on (ride_topic rideId) RideUpdate)) ;;
  modify (with_socketService
            (SocketService.on (driver_topic number_to_string ride) DriverLocation)).

(** The cleanup the same effect returns; [ride] is the value [subscribe]
    saw. *)
Definition unsubscribe (ride : jsval) : M state unit :=
  modify (with_socketService (SocketService.off (ride_topic rideId))) ;;
  modify (with_socketService (SocketService.off (driver_topic number_to_string ride))).

(** [handleCancelRide] *)
Definition handleCancelRide : M state unit :=
  try_catch
    (let* _ := rideService.cancelRide api rideId in
     navigate "/")
    (fun error => console_error "Failed to cancel ride:" error).

End Handlers.

(** Leaving the page runs the cleanups of its effects in the order the
    effects were declared: that of [useSocket], then [unsubscribe]. *)
Definition unmount (number_to_string : float → string) (rideId : string)
    (ride : jsval) : M state unit :=
  modify (with_socketService SocketService.disconnect) ;;
  unsubscribe number_to_string rideId ride.

(** The listener on the ride topic: [setRide(prev => ({ ...prev, ...data }))]. *)
Definition on_ride_update (data : jsval) : M state unit :=
  modify (with_page (fun st => setRide (JObj (spread data ∪ spread (ride st))) st)).

(** The listener on the driver topic: [setDriver(prev => ({ ...prev, location }))]. *)
Definition on_driver_location (location : jsval) : M state unit :=
  modify (with_page
            (fun st => setDriver (JObj (<["location" := location]> (spread (driver st)))) st)).

(** [onClick={() => setShowCancelModal(true)}] *)
Definition open_confirmation : M state unit :=
  modify (with_page (setShowCancelModal true)).

End RideTracking.

Module useSocket.

(** [if (isAuthenticated && token) { socketService.connect(token) }] *)
Definition effect {L} (isAuthenticated : bool) (token : jsval) : M L unit :=
  if isAuthenticated && truthy token
  then modify (with_socketService (fun s => snd (SocketService.connect token s)))
  else ret tt.

(** [return () => { socketService.disconnect() }] *)
Definition cleanup {L} : M L unit :=
  modify (with_socketService SocketService.disconnect).

End useSocket.

(* ===================================================================== *)
(** ** pages/driver/AcceptRide *)
(* ===================================================================== *)

Module AcceptRide.
Import RIDE_STATUS.

Record state : Type := mk {
  ride : jsval;
  loading : bool
}.

Definition initial : state := {| ride := JNull; loading := true |}.

Definition setRide (v : jsval) (st : state) : state := {| ride := v; loading := loading st |}.
Definition setLoading (b : bool) (st : state) : state := {| ride := ride st; loading := b |}.

Section Handlers.
Context (api : backend) (rideId : string).

(** [loadRideDetails] *)
Definition loadRideDetails : M state unit :=
  try_finally
    (try_catch
       (let* data := rideService.getRideStatus api rideId in
        let* r := member data "ride" in
        modify (with_page (setRide r)))
       (fun error => console_error "Failed to load ride:" error))
    (modify (with_page (setLoading false))).

(** [handleStartRide]; [ride] is the cell's value in the render the handler
    was made in. *)
Definition handleStartRide : M state unit :=
  let* ride := gets (fun w => ride (page w)) in
  try_catch
    (let* _ := rideService.startRide api rideId in
     modify (with_page (setRide (JObj (<["status" := JStr IN_PROGRESS]> (spread ride))))))
    (fun error => console_error "Failed to start ride:" error).

(** [handleCompleteRide] *)
Definition handleCompleteRide : M state unit :=
  try_catch
    (let* _ := rideService.completeRide api rideId in
     navigate "/driver/dashboard")
    (fun error => console_error "Failed to complete ride:" error).

End Handlers.
End AcceptRide.

(* ===================================================================== *)
(** ** hooks/useGeolocation *)
(* ===================================================================== *)

Module useGeolocation.

(** A [GeolocationPosition] as the browser delivers it. *)
Record coordinates : Type := Coordinates {
  latitude : float;
  longitude : float;
  accuracy : float
}.
Record position : Type := Position { coords : coordinates; timestamp : Z }.

(** The hook's [useState] cells. *)
Record state : Type := mk {
  error : jsval;
  loading : bool
}.

Definition initial : state := {| error := JNull; loading := true |}.

Definition setError (v : jsval) (st : state) : state := {| error := v; loading := loading st |}.
Definition setLoading (b : bool) (st : state) : state := {| error := error st; loading := b |}.

(** The success callback given to [watchPosition]. *)
Definition on_position (p : position) : M state unit :=
  modify (with_locationStore
            (LocationStore.setCurrentLocation
               (JObj (<["lat" := JNum (latitude (coords p))]>
                     (<["lng" := JNum (longitude (coords p))]> ∅))))) ;;
  modify (with_page (setLoading false)) ;;
  modify (with_page (setError JNull)).

(** The error callback given to [watchPosition]; [message] is [err.message]. *)
Definition on_error (message : jsval) : M state unit :=
  modify (with_page (setError message)) ;;
  modify (with_page (setLoading false)).

(** The branch taken when [navigator.geolocation] is missing. *)
Definition unsupported : M state unit :=
  modify (with_page (setError (JStr "Geolocation is not supported"))) ;;
  modify (with_page (setLoading false)).

(** What the browser hands to the watch, one callback at a time. *)
Inductive delivery : Type :=
| Reading (p : position)
| Failure (message : jsval).

Definition deliver (d : delivery) : M state unit :=
  match d with
  | Reading p => on_position p
  | Failure message => on_error message
  end.

(** The world after the browser made the deliveries [ds], oldest first. *)
Definition deliver_all (ds : list delivery) (w : world state) : world state :=
  foldl (fun acc d => exec (deliver d) acc) w ds.

End useGeolocation.

(* ===================================================================== *)
(** ** utils/helpers (debounce) *)
(* ===================================================================== *)

Module helpers.

(** Modelled from the spec: utils/helpers.js, where [debounce] is
    defined, is not among the sources.  The specification's words for
    it: every call restarts a fixed delay window, and only the last call
    within the window goes through (trailing edge).  A debounced
    function therefore holds at most one pending call, with the time at
    which its window ends. *)
Record debounced (A : Type) : Type := Debounced {
  delay : Z;
  pending : option (Z * A)
}.
Arguments Debounced {A} _ _.
Arguments delay {A} _.
Arguments pending {A} _.

(** Modelled from the spec: [debounce(f, delay)] of the missing
    utils/helpers.js; a new debounced function has nothing pending. *)
Definition debounce {A} (delay : Z) : debounced A := Debounced delay None.

(** Modelled from the spec: a call of the debounced function at time
    [now], which utils/helpers.js would define; it replaces the pending
    call and restarts the window. *)
Definition call {A} (now : Z) (a : A) (d : debounced A) : debounced A :=
  Debounced (delay d) (Some ((now + delay d)%Z, a)).

(** Modelled from the spec: the timer of the missing [debounce]; the
    argument that goes through when the clock shows [now], if the window
    of the pending call has ended by then. *)
Definition due {A} (now : Z) (d : debounced A) : option A :=
  match pending d with
  | Some (ends, a) => if (ends <=? now)%Z then Some a else None
  | None => None
  end.

(** Modelled from the spec: the state of the missing [debounce] once its
    pending call went through. *)
Definition clear {A} (d : debounced A) : debounced A := Debounced (delay d) None.

End helpers.

(* ===================================================================== *)
(** ** components/maps/LocationPicker *)
(* ===================================================================== *)

Module LocationPicker.

(** An autocomplete prediction, as far as the component reads it. *)
Record prediction : Type := Prediction {
  place_id : string;
  description : string;
  main_text : string;
  secondary_text : string
}.

(** [window.google.maps.places.PlacesServiceStatus.OK] *)
Definition PlacesServiceStatus_OK : string := "OK".

(** The component's [useState] cells, whether the Places library is
    loaded, the inputs handed to [getPlacePredictions] so far (oldest
    first) and the number of errors logged. *)
Record env : Type := Env {
  query : string;
  suggestions : list prediction;
  loading : bool;
  provider_ready : bool;
  requested : list string;
  errors : nat
}.

(** The component as mounted. *)
Definition mounted (provider_ready : bool) : env :=
  Env "" [] false provider_ready [] 0.

Definition setQuery (q : string) (e : env) : env :=
  Env q (suggestions e) (loading e) (provider_ready e) (requested e) (errors e).
Definition setSuggestions (l : list prediction) (e : env) : env :=
  Env (query e) l (loading e) (provider_ready e) (requested e) (errors e).
Definition setLoading (b : bool) (e : env) : env :=
  Env (query e) (suggestions e) b (provider_ready e) (requested e) (errors e).
Definition getPlacePredictions (input : string) (e : env) : env :=
  Env (query e) (suggestions e) (loading e) (provider_ready e) (requested e ++ [input]) (errors e).
Definition console_error (e : env) : env :=
  Env (query e) (suggestions e) (loading e) (provider_ready e) (requested e) (S (errors e)).

(** The function given to [debounce]: an empty text clears the
    suggestions; any other text is sent to the provider, unless
    the Places library is missing, which throws into the [catch]. *)
Definition search (searchQuery : string) (e : env) : env :=
  if String.eqb searchQuery "" then setSuggestions [] e
  else
    let e1 := setLoading true e in
    if provider_ready e1 then getPlacePredictions searchQuery e1
    else setLoading false (console_error e1).

(** The callback given to [getPlacePredictions]:
    [if (status === OK) { setSuggestions(predictions) }; setLoading(false)]. *)
Definition on_predictions (predictions : list prediction) (status : string) (e : env) : env :=
  setLoading false
    (if String.eqb status PlacesServiceStatus_OK then setSuggestions predictions e else e).

(** An answer of the provider on its way back: the request it answers
    (by its position in [requested]) and what the callback receives. *)
Record answer : Type := Answer {
  answers_request : nat;
  predictions : list prediction;
  status : string
}.

Definition arrive (a : answer) (e : env) : env :=
  on_predictions (predictions a) (status a) e.

(** The component after the answers [l] arrived, first arrival first. *)
Definition arrive_all (l : list answer) (e : env) : env :=
  foldl (fun acc a => arrive a acc) e l.

Definition is_ok (a : answer) : bool := String.eqb (status a) PlacesServiceStatus_OK.

(** *** One debounced [searchLocations] under the clock *)

Record timed : Type := Timed {
  page : env;
  searchLocations : helpers.debounced string
}.

(** [debounce(async (searchQuery) => { ... }, 500)] *)
Definition start (e : env) : timed := Timed e (helpers.debounce 500%Z).

(** The clock reaches [now]: a pending call whose window has ended runs. *)
Definition elapse (now : Z) (t : timed) : timed :=
  match helpers.due now (searchLocations t) with
  | Some text => Timed (search text (page t)) (helpers.clear (searchLocations t))
  | None => t
  end.

(** [searchLocations(text)] at time [now]. *)
Definition call_at (now : Z) (text : string) (t : timed) : timed :=
  let t1 := elapse now t in
  Timed (page t1) (helpers.call now text (searchLocations t1)).

(** Nothing more is called: the window of the pending call runs out. *)
Definition settle (t : timed) : timed :=
  match helpers.pending (searchLocations t) with
  | Some (ends, _) => elapse ends t
  | None => t
  end.

(** The calls [(time, text)], oldest first, and then quiet. *)
Definition run (calls : list (Z * string)) (t : timed) : timed :=
  settle (foldl (fun acc c => call_at (fst c) (snd c) acc) t calls).

(** Every call comes before the window of the call before it has ended. *)
Fixpoint within_window (delay : Z) (calls : list (Z * string)) : bool :=
  match calls with
  | c1 :: rest =>
      match rest with
      | c2 :: _ => (fst c1 <=? fst c2)%Z && (fst c2 <? fst c1 + delay)%Z
      | [] => true
      end && within_window delay rest
  | [] => true
  end.

(** *** The component across renders

    [const searchLocations = debounce(...)] stands in the component body,
    so every render makes a debounced function of its own, and the effect
    on [query] calls the one of the render it belongs to. *)
Record rendered : Type := Rendered {
  shown : env;
  made : list (helpers.debounced string)
}.

(** The debounced functions whose window has ended by [now] run, oldest first. *)
Definition elapse_all (now : Z) (r : rendered) : rendered :=
  foldl
    (fun acc d =>
       match helpers.due now d with
       | Some text => Rendered (search text (shown acc)) (made acc)
       | None => Rendered (shown acc) (made acc ++ [d])
       end)
    (Rendered (shown r) []) (made r).

(** The input changes to [text] at time [now]: [setQuery(text)], a new
    render, and its effect calls the new [searchLocations(text)]. *)
Definition type_at (now : Z) (text : string) (r : rendered) : rendered :=
  let r1 := elapse_all now r in
  Rendered (setQuery text (shown r1))
           (made r1 ++ [helpers.call now text (helpers.debounce 500%Z)]).

(** Every window that is still open runs out, oldest first. *)
Definition settle_all (r : rendered) : rendered :=
  foldl
    (fun acc d =>
       match helpers.pending d with
       | Some (_, text) => Rendered (search text (shown acc)) []
       | None => acc
       end)
    (Rendered (shown r) []) (made r).

(** The first render calls [searchLocations('')]; then the texts are
    typed at their times; then quiet. *)
Definition typing (provider_ready : bool) (keys : list (Z * string)) : env :=
  shown (settle_all
           (foldl (fun acc k => type_at (fst k) (snd k) acc)
                  (Rendered (mounted provider_ready)
                            [helpers.call 0%Z "" (helpers.debounce 500%Z)])
                  keys)).

End LocationPicker.

(* ===================================================================== *)
(** ** Runs of socket service calls *)
(* ===================================================================== *)

Module SocketCalls.

(** The five methods of the service, as a caller invokes them. *)
Inductive call : Type :=
| Connect (token : jsval)
| Disconnect
| On (event : string) (callback : listener)
| Off (event : string)
| Emit (event : string) (data : jsval).

Definition step (c : call) (st : SocketService.state) : SocketService.state :=
  match c with
  | Connect token => snd (SocketService.connect token st)
  | Disconnect => SocketService.disconnect st
  | On event callback => SocketService.on event callback st
  | Off event => SocketService.off event st
  | Emit event data => SocketService.emit event data st
  end.

(** The service after the calls [cs], oldest first. *)
Definition run (cs : list call) (st : SocketService.state) : SocketService.state :=
  foldl (fun acc c => step c acc) st cs.

(** [this.socket], when set, points at a socket of the process that has
    not been closed. *)
Definition sound (st : SocketService.state) : Prop :=
  ∀ i, SocketService.socket st = Some i →
       ∃ s, SocketService.sockets st !! i = Some s ∧ Transport.is_open s = true.

(** [emit] for each of the messages, oldest first. *)
Definition emit_all (messages : list (string * jsval)) (st : SocketService.state)
    : SocketService.state :=
  foldl (fun acc m => SocketService.emit (fst m) (snd m) acc) st messages.

End SocketCalls.

(* ===================================================================== *)
(** ** components/maps/LocationPicker: choosing a suggestion *)
(* ===================================================================== *)

Module PlaceSelection.
Import LocationPicker.

(** [results[0].geometry.location], read through [lat()] and [lng()]. *)
Record geocoded : Type := Geocoded { lat : float; lng : float }.

(** The object handed to [onLocationSelect]. *)
Definition selected (place : prediction) (location : geocoded) : jsval :=
  JObj (<["address" := JStr (description place)]>
       (<["lat" := JNum (lat location)]>
       (<["lng" := JNum (lng location)]> ∅))).

(** The callback [handleSelectLocation] gives to [geocoder.geocode]:
    under [status === 'OK' && results[0]] the place goes to
    [onLocationSelect], the input shows its description and the
    suggestions close; otherwise nothing happens.  The result is the
    value [onLocationSelect] was called with, if it was called. *)
Definition on_geocoded (place : prediction) (results : list geocoded) (status : string)
    (e : env) : option jsval * env :=
  if String.eqb status "OK" then
    match results with
    | location :: _ =>
        (Some (selected place location),
         setSuggestions [] (setQuery (description place) e))
    | [] => (None, e)
    end
  else (None, e).

(** The two pickers of the booking page: [onLocationSelect] is
    [setPickupLocation] in the first and [setDropoffLocation] in the second. *)
Definition pick_pickup (choice : option jsval) (st : LocationStore.state)
    : LocationStore.state :=
  match choice with
  | Some location => LocationStore.setPickupLocation location st
  | None => st
  end.

Definition pick_dropoff (choice : option jsval) (st : LocationStore.state)
    : LocationStore.state :=
  match choice with
  | Some location => LocationStore.setDropoffLocation location st
  | None => st
  end.

End PlaceSelection.

(* ===================================================================== *)
(** ** App: routes and ProtectedRoute *)
(* ===================================================================== *)

Module App.

Inductive page : Type :=
| Login | Register | PassengerHome | BookRide | RideTracking | PassengerProfile
| DriverDashboard | AcceptRide | Earnings.

(** What a route renders: a page, or [<Navigate to=... replace />]. *)
Inductive element : Type :=
| Show (p : page)
| NavigateTo (path : string).

(** [allowedRoles.includes(v)] for an array of strings. *)
Definition includes (roles : list string) (v : jsval) : bool :=
  match v with
  | JStr s => existsb (String.eqb s) roles
  | _ => false
  end.

(** [ProtectedRoute]; [user] and [isAuthenticated] come from the auth store. *)
Definition ProtectedRoute (isAuthenticated : bool) (user : jsval)
    (allowedRoles : option (list string)) (children : page) : element :=
  if negb isAuthenticated then NavigateTo "/login"
  else
    match allowedRoles with
    | Some roles =>
        if negb (includes roles (member_opt user "user_type"))
        then NavigateTo "/"
        else Show children
    | None => Show children
    end.

(** The [<Route>]s of [App], by path pattern. *)
Inductive route : Type :=
| at_login              (* /login *)
| at_register           (* /register *)
| at_home               (* / *)
| at_book_ride          (* /book-ride *)
| at_ride               (* /ride/:rideId *)
| at_profile            (* /profile *)
| at_driver_dashboard   (* /driver/dashboard *)
| at_driver_ride        (* /driver/ride/:rideId *)
| at_driver_earnings.   (* /driver/earnings *)

Definition page_of (r : route) : page :=
  match r with
  | at_login => Login
  | at_register => Register
  | at_home => PassengerHome
  | at_book_ride => BookRide
  | at_ride => RideTracking
  | at_profile => PassengerProfile
  | at_driver_dashboard => DriverDashboard
  | at_driver_ride => AcceptRide
  | at_driver_earnings => Earnings
  end.

(** The [allowedRoles] of the [ProtectedRoute] around the route's page;
    the two public routes have no [ProtectedRoute]. *)
Definition guard (r : route) : option (list string) :=
  match r with
  | at_login | at_register => None
  | at_home | at_book_ride | at_ride | at_profile => Some ["passenger"]
  | at_driver_dashboard | at_driver_ride | at_driver_earnings => Some ["driver"]
  end.

(** The [element] of the route. *)
Definition element_of (isAuthenticated : bool) (user : jsval) (r : route) : element :=
  match guard r with
  | Some roles => ProtectedRoute isAuthenticated user (Some roles) (page_of r)
  | None => Show (page_of r)
  end.

(** The route a static path selects. *)
Definition static_route (path : string) : option route :=
  if String.eqb path "/login" then Some at_login
  else if String.eqb path "/register" then Some at_register
  else if String.eqb path "/" then Some at_home
  else if String.eqb path "/book-ride" then Some at_book_ride
  else if String.eqb path "/profile" then Some at_profile
  else if String.eqb path "/driver/dashboard" then Some at_driver_dashboard
  else if String.eqb path "/driver/earnings" then Some at_driver_earnings
  else None.

(** Opening a route and following at most [redirects] of its
    [<Navigate>]s. *)
Fixpoint visit (redirects : nat) (isAuthenticated : bool) (user : jsval) (r : route)
    : element :=
  match element_of isAuthenticated user r with
  | Show p => Show p
  | NavigateTo path =>
      match redirects, static_route path with
      | S n, Some r' => visit n isAuthenticated user r'
      | _, _ => NavigateTo path
      end
  end.

End App.

(* ===================================================================== *)
(** ** hooks/useAuth and pages/auth/Register *)
(* ===================================================================== *)

Module Promises.

(** [await] on a promise whose settlement is known. *)
Definition settle {L A} (o : outcome A) : M L A := fun w => (o, w).

(** [error.response?.data?.message || fallback] inside a [catch]. *)
Definition message_or {L} (error : jsval) (fallback : string) : M L jsval :=
  let* response := member error "response" in
  let message := member_opt (member_opt response "data") "message" in
  ret (if truthy message then message else JStr fallback).

End Promises.

Module useAuth.
Import Promises.

Section WithAuthStore.
(** The auth store and the auth service are not among the sources; the
    store's state and its [login] and [logout] actions, and the way the
    service's promises settle, come in from outside. *)
Context {S : Type} (store_login : jsval → jsval → S → S) (store_logout : S → S).

Definition succeeded : jsval := JObj (<["success" := JBool true]> ∅).
Definition failed (error : jsval) : jsval :=
  JObj (<["success" := JBool false]> (<["error" := error]> ∅)).

(** [handleLogin]; [login_call] is how [authService.login(email, password)]
    settles. *)
Definition handleLogin (login_call : outcome jsval) : M S jsval :=
  try_catch
    (let* data := settle login_call in
     let* user := member data "user" in
     let* token := member data "token" in
     modify (with_page (store_login user token)) ;;
     modify (with_socketService (fun s => snd (SocketService.connect token s))) ;;
     ret succeeded)
    (fun error =>
       let* message := message_or error "Login failed" in
       ret (failed message)).

(** [handleLogout]; [logout_call] is how [authService.logout()] settles. *)
Definition handleLogout (logout_call : outcome jsval) : M S unit :=
  try_catch
    (let* _ := settle logout_call in
     modify (with_socketService SocketService.disconnect) ;;
     modify (with_page store_logout))
    (fun error => console_error "Logout error:" error).

End WithAuthStore.
End useAuth.

Module Register.
Import Promises.

Record formData : Type := FormData {
  firstName : string;
  lastName : string;
  email : string;
  phone : string;
  password : string;
  confirmPassword : string;
  userType : string
}.

Record state : Type := mk {
  form : formData;
  error : jsval;
  loading : bool
}.

Definition setError (v : jsval) (st : state) : state :=
  {| form := form st; error := v; loading := loading st |}.
Definition setLoading (b : bool) (st : state) : state :=
  {| form := form st; error := error st; loading := b |}.



End Register.

(* ===================================================================== *)
(** ** Nullish values and what a handler guarantees *)
(* ===================================================================== *)

Module Edge.

(** [null] and [undefined]: the values a property read throws on. *)
Definition nullish (v : jsval) : bool :=
  match v with
  | JUndefined | JNull => true
  | _ => false
  end.

(** The readings among the deliveries of the geolocation watch. *)
Definition readings (ds : list useGeolocation.delivery) : list useGeolocation.position :=
  omap (fun d => match d with
                 | useGeolocation.Reading p => Some p
                 | useGeolocation.Failure _ => None
                 end) ds.

(** The object [setCurrentLocation] receives for a reading. *)
Definition located (p : useGeolocation.position) : jsval :=
  JObj (<["lat" := JNum (useGeolocation.latitude (useGeolocation.coords p))]>
       (<["lng" := JNum (useGeolocation.longitude (useGeolocation.coords p))]> ∅)).

(** The body [handleConfirmBooking] posts for two chosen places. *)
Definition booking_request (pickup dropoff : gmap string jsval) : request :=
  Request POST "/rides/request"
    (Some (JObj (<["pickup_latitude" := prop "lat" pickup]>
                (<["pickup_longitude" := prop "lng" pickup]>
                (<["pickup_address" := prop "address" pickup]>
                (<["destination_latitude" := prop "lat" dropoff]>
                (<["destination_longitude" := prop "lng" dropoff]>
                (<["destination_address" := prop "address" dropoff]> ∅)))))))).

(** The call [handleConfirmBooking] makes once both places could be
    read: each field is what the property read gives, [undefined] on a
    place that is not an object. *)
Definition booking_call (pickup dropoff : jsval) : request :=
  Request POST "/rides/request"
    (Some (JObj (<["pickup_latitude" := member_opt pickup "lat"]>
                (<["pickup_longitude" := member_opt pickup "lng"]>
                (<["pickup_address" := member_opt pickup "address"]>
                (<["destination_latitude" := member_opt dropoff "lat"]>
                (<["destination_longitude" := member_opt dropoff "lng"]>
                (<["destination_address" := member_opt dropoff "address"]> ∅)))))))).

(** A text the search sends on to the provider: any but the empty one. *)
Definition asks (text : string) : bool := negb (String.eqb text "").

(** A debounced function whose pending call will send a request. *)
Definition waiting (d : helpers.debounced string) : bool :=
  match helpers.pending d with
  | Some (_, text) => asks text
  | None => false
  end.

(** The requests the component has made and those its open windows will
    still make. *)
Definition backlog (r : LocationPicker.rendered) : nat :=
  length (LocationPicker.requested (LocationPicker.shown r))
  + length (filter (fun d => waiting d) (LocationPicker.made r)).

(** The body [rideService.estimateFare] posts for two chosen places. *)
Definition estimate_request (pickup dropoff : gmap string jsval) : request :=
  Request POST "/location/estimate-fare"
    (Some (JObj (<["pickup_latitude" := prop "lat" pickup]>
                (<["pickup_longitude" := prop "lng" pickup]>
                (<["destination_latitude" := prop "lat" dropoff]>
                (<["destination_longitude" := prop "lng" dropoff]> ∅)))))).

End Edge.

(* ===================================================================== *)
(** ** What a handler leaves alone *)
(* ===================================================================== *)

Module Frame.

(** The handler body [m] ends with the same [f]-part of the world it
    started with. *)
Definition preserves {L A X} (f : world L → X) (m : M L A) : Prop :=
  ∀ w, f (exec m w) = f w.

(** The handler body [m] ends by throwing, whatever the world. *)
Definition always_throws {L A} (m : M L A) : Prop :=
  ∀ w, ∃ e, fst (m w) = Rejected e.

(** The backend refuses the call [r]: the promise of the call rejects. *)
Definition refuses (api : backend) (r : request) : Prop :=
  ∃ e, api r = Rejected e.

End Frame.
Import Frame.

(* ===================================================================== *)
(** ** Concrete situations *)
(* ===================================================================== *)

Module Scenario.
Import RIDE_STATUS.

Definition ride_42 (status : string) : jsval :=
  JObj (<["id" := JStr "42"]> (<["status" := JStr status]> ∅)).

(** A store whose current ride was completed, and one whose ride is under way. *)
Definition completed_store : RideStore.state :=
  RideStore.setCurrentRide (ride_42 COMPLETED) RideStore.initial.
Definition in_progress_store : RideStore.state :=
  RideStore.setCurrentRide (ride_42 IN_PROGRESS) RideStore.initial.

(** A backend that accepts every call, and one that is out of reach. *)
Definition accepting : backend := fun _ => Fulfilled (Response (JObj ∅)).
Definition unreachable : backend := fun _ => Rejected (JStr "Network Error").

(** A backend that turns down bookings picked up at Main St and accepts
    every other call, and one that accepts the cancel of ride 42 and
    refuses every other call. *)
Definition no_main_street : backend :=
  fun r =>
    match payload r with
    | Some (JObj body) =>
        match body !! "pickup_address" with
        | Some (JStr "Main St") => Rejected (JStr "No drivers at Main St")
        | _ => Fulfilled (Response (JObj ∅))
        end
    | _ => Fulfilled (Response (JObj ∅))
    end.

(** The socket service after login, and after the tracking page of
    ride 42 has subscribed through it. *)
Definition connected : SocketService.state :=
  snd (SocketService.connect (JStr "token-1") SocketService.initial).
Definition subscribed : SocketService.state :=
  SocketService.on "driver_undefined_location" DriverLocation
    (SocketService.on "ride_42_update" RideUpdate connected).

(** The tracking page of ride 42 with the given status, subscribed, and
    with the cancel confirmation open or not. *)
Definition tracking (status : string) (confirming : bool) : world RideTracking.state :=
  World (RideStore.setCurrentRide (ride_42 status) RideStore.initial)
        LocationStore.initial subscribed []
        (RideTracking.mk (ride_42 status) JNull confirming false).

(** The driver's page of ride 42, under way. *)
Definition driving : world AcceptRide.state :=
  World in_progress_store LocationStore.initial subscribed []
        (AcceptRide.mk (ride_42 IN_PROGRESS) false).

(** The booking page with both places chosen and a ride already in the store. *)
Definition place (address : string) (lat lng : float) : jsval :=
  JObj (<["address" := JStr address]> (<["lat" := JNum lat]> (<["lng" := JNum lng]> ∅))).
Definition booking : world BookRide.state :=
  World completed_store
        (LocationStore.setDropoffLocation (place "Airport" 40.7%float (-74.2)%float)
           (LocationStore.setPickupLocation (place "Main St" 40.0%float (-74.0)%float)
              LocationStore.initial))
        connected []
        (BookRide.mk (JNum 12.5%float) false 2).

(** Three readings of the geolocation watch. *)
Definition reading (lat lng : float) : useGeolocation.position :=
  useGeolocation.Position (useGeolocation.Coordinates lat lng 5%float) 0.
Definition watching : world useGeolocation.state :=
  World RideStore.initial LocationStore.initial SocketService.initial []
        useGeolocation.initial.

(** Predictions for two search texts. *)
Definition for_a : list LocationPicker.prediction :=
  [LocationPicker.Prediction "p1" "Albany, NY" "Albany" "NY"].
Definition for_ab : list LocationPicker.prediction :=
  [LocationPicker.Prediction "p2" "Abilene, TX" "Abilene" "TX"].

End Scenario.

(* ===================================================================== *)
(** ** The ride store *)
(* ===================================================================== *)

Section RideStoreFacts.
Import RideStore RIDE_STATUS StatusOrder Scenario.

Lemma updateRideStatus_truthy status st :
  truthy (currentRide st) = true →
  currentRide (updateRideStatus status st)
  = JObj (<["status" := status]> (spread (currentRide st))).
Proof. intros Ht. unfold updateRideStatus. simpl. by rewrite Ht. Qed.

Lemma updateRideStatus_falsy status st :
  truthy (currentRide st) = false →
  currentRide (updateRideStatus status st) = JNull.
Proof. intros Hf. unfold updateRideStatus. simpl. by rewrite Hf. Qed.

Lemma updateRideStatus_keeps_truthy status st :
  truthy (currentRide st) = true →
  truthy (currentRide (updateRideStatus status st)) = true.
Proof. intros Ht. by rewrite updateRideStatus_truthy. Qed.

Lemma updateRideStatus_all_keeps_truthy statuses st :
  truthy (currentRide st) = true →
  truthy (currentRide (updateRideStatus_all statuses st)) = true.
Proof.
  revert st. induction statuses as [|s ss IH]; intros st Ht; [done|].
  simpl. apply IH. by apply updateRideStatus_keeps_truthy.
Qed.

Lemma updateRideStatus_all_snoc statuses s st :
  updateRideStatus_all (statuses ++ [s]) st
  = updateRideStatus s (updateRideStatus_all statuses st).
Proof. unfold updateRideStatus_all. by rewrite foldl_app. Qed.

(** C1, as stated, fails: a stale Accepted after Completed is applied, and
    so is Cancelled while the ride is in progress, although the
    specification's order permits neither. *)
Lemma updateRideStatus_regresses :
  ride_status completed_store = Some (JStr COMPLETED)
  ∧ permitted COMPLETED ACCEPTED = false
  ∧ ride_status (updateRideStatus (JStr ACCEPTED) completed_store)
    = Some (JStr ACCEPTED)
  ∧ ride_status in_progress_store = Some (JStr IN_PROGRESS)
  ∧ permitted IN_PROGRESS CANCELLED = false
  ∧ ride_status (updateRideStatus (JStr CANCELLED) in_progress_store)
    = Some (JStr CANCELLED).
Proof. repeat split; vm_compute; reflexivity. Qed.

(** C1, amended: [updateRideStatus] checks no order.  With a current ride
    in the store, after any run of calls the stored status is the status
    of the last call, whatever the earlier statuses were. *)
Theorem updateRideStatus_last_call_wins statuses s st :
  truthy (currentRide st) = true →
  ride_status (updateRideStatus_all (statuses ++ [s]) st) = Some s.
Proof.
  intros Ht. rewrite updateRideStatus_all_snoc.
  unfold ride_status, ride_field.
  rewrite updateRideStatus_truthy
    by (by apply updateRideStatus_all_keeps_truthy).
  apply lookup_insert_eq.
Qed.

Lemma updateRideStatus_last_call_wins_witness :
  truthy (currentRide completed_store) = true
  ∧ ride_status
      (updateRideStatus_all
         ([JStr IN_PROGRESS; JStr CANCELLED] ++ [JStr REQUESTED])
         completed_store)
    = Some (JStr REQUESTED).
Proof.
  split; [reflexivity|].
  apply (updateRideStatus_last_call_wins
           [JStr IN_PROGRESS; JStr CANCELLED] (JStr REQUESTED) completed_store).
  reflexivity.
Defined.

(** C10: [updateRideStatus] touches nothing but the [status] property of
    the current ride.  With a ride object in the store every other
    property (id, pickup, destination, fare, driver, passenger) reads as
    before, and the history and the nearby drivers are the same; with
    [null] in the store the whole state is the same and no ride appears. *)
Theorem updateRideStatus_frame status st k :
  k ≠ "status" →
  rideHistory (updateRideStatus status st) = rideHistory st
  ∧ nearbyDrivers (updateRideStatus status st) = nearbyDrivers st
  ∧ match currentRide st with
    | JObj _ =>
        ride_field k (updateRideStatus status st) = ride_field k st
        ∧ ride_status (updateRideStatus status st) = Some status
    | JNull => updateRideStatus status st = st
    | _ => True
    end.
Proof.
  intros Hk. split; [done|]. split; [done|].
  destruct st as [c h d]. destruct c as [| |b|x|s|fields]; try done.
  unfold ride_status, ride_field. simpl. split.
  - by apply lookup_insert_ne.
  - apply lookup_insert_eq.
Qed.

Lemma updateRideStatus_frame_witness :
  "id" ≠ "status"
  ∧ ride_field "id" (updateRideStatus (JStr ACCEPTED) completed_store)
    = ride_field "id" completed_store
  ∧ updateRideStatus (JStr ACCEPTED) initial = initial.
Proof.
  assert (Hk : "id" ≠ "status") by discriminate.
  split; [exact Hk|].
  pose proof (updateRideStatus_frame (JStr ACCEPTED) completed_store "id" Hk)
    as (_ & _ & Hride & _).
  pose proof (updateRideStatus_frame (JStr ACCEPTED) initial "id" Hk)
    as (_ & _ & Hnull).
  split; [exact Hride | exact Hnull].
Defined.

End RideStoreFacts.

(* ===================================================================== *)
(** ** The socket service *)
(* ===================================================================== *)

Section SocketFacts.
Import SocketService Scenario.

Lemma alter_last {A} (f : A → A) (l : list A) (x : A) :
  alter f (length l) (l ++ [x]) = l ++ [f x].
Proof. induction l as [|y l IH]; [done|]. cbn. f_equal. exact IH. Qed.

Lemma transport_handlers_on_same topic h s :
  Transport.handlers_of topic (Transport.on topic h s)
  = Transport.handlers_of topic s ++ [h].
Proof.
  unfold Transport.handlers_of, Transport.on. simpl.
  rewrite filter_app, map_app. f_equal.
  rewrite filter_cons_True; [done|].
  simpl. by rewrite String.eqb_refl.
Qed.

Lemma on_this_current f st s :
  current st = Some s → current (on_this f st) = Some (f s).
Proof.
  unfold current, on_this. destruct (socket st) as [i|]; [|done].
  simpl. intros Hs. by rewrite list_lookup_alter_eq, Hs.
Qed.

Lemma on_this_dangling f st :
  current st = None → on_this f st = st.
Proof.
  unfold current, on_this. destruct st as [[i|] l]; simpl; [|done].
  intros Hnone. f_equal. apply lookup_ge_None in Hnone.
  apply list_eq. intros j. rewrite list_lookup_alter.
  case_decide; [|done]. subst j.
  by rewrite (proj2 (lookup_ge_None l i)).
Qed.

Lemma on_current topic h st s :
  current st = Some s →
  current (on topic h st) = Some (Transport.on topic h s).
Proof.
  intros Hs. unfold on.
  destruct (socket st) eqn:Hsock.
  - by apply on_this_current.
  - unfold current in Hs. by rewrite Hsock in Hs.
Qed.

Lemma on_dangling topic h st : current st = None → on topic h st = st.
Proof.
  intros Hnone. unfold on. destruct (socket st); [|done].
  by apply on_this_dangling.
Qed.

(** C5, as stated, fails: on a connected service the second [on] for a
    topic adds a second listener, be it the same function or another;
    on a service without a socket neither call registers anything. *)
Lemma on_twice_accumulates :
  handlers_of "ride_42_update"
    (on "ride_42_update" (Callback 1) (on "ride_42_update" (Callback 1) connected))
  = [Callback 1; Callback 1]
  ∧ handlers_of "ride_42_update"
      (on "ride_42_update" (Callback 2) (on "ride_42_update" (Callback 1) connected))
    = [Callback 1; Callback 2]
  ∧ handlers_of "ride_42_update"
      (on "ride_42_update" (Callback 1) (on "ride_42_update" (Callback 1) initial))
    = [].
Proof. repeat split; vm_compute; reflexivity. Qed.

(** C5, amended: [on] keeps no table of its own and replaces nothing.  On
    a service with a socket, subscribing [h1] and then [h2] to a topic
    adds both to the listeners the topic already had, in that order (so
    [h1] twice is there twice); on a service without a socket the two
    calls change nothing. *)
Theorem on_twice_appends topic h1 h2 st :
  match current st with
  | Some s =>
      handlers_of topic (on topic h2 (on topic h1 st))
      = Transport.handlers_of topic s ++ [h1; h2]
  | None => on topic h2 (on topic h1 st) = st
  end.
Proof.
  destruct (current st) as [s|] eqn:Hs.
  - unfold handlers_of.
    rewrite (on_current topic h2 _ (Transport.on topic h1 s))
      by (by apply on_current).
    rewrite !transport_handlers_on_same. by rewrite <- app_assoc.
  - by rewrite !on_dangling by (by rewrite ?on_dangling).
Qed.

Lemma connect_sockets token st :
  snd (connect token st)
  = mk (Some (length (sockets st)))
       (sockets st
        ++ [Transport.on "disconnect" LogDisconnected
              (Transport.on "connect" LogConnected (Transport.fresh token))]).
Proof.
  unfold connect, io, on_this. simpl.
  rewrite alter_last. simpl.
  rewrite alter_last. reflexivity.
Qed.

(** C6, as stated, fails: a second [connect] leaves two open sockets, and
    the first is no longer the one the service points at.  The effect of
    [useSocket] on a page opened after login is such a second [connect]. *)
Lemma connect_twice_two_active :
  let twice := snd (connect (JStr "token-2") connected) in
  let page_opened :=
    exec (useSocket.effect true (JStr "token-1"))
         (World RideStore.initial LocationStore.initial connected []
                RideTracking.initial) in
  length (active connected) = 1
  ∧ length (active twice) = 2
  ∧ socket twice = Some 1
  ∧ Transport.is_open <$> sockets twice !! 0 = Some true
  ∧ length (active (socketService page_opened)) = 2.
Proof. repeat split; vm_compute; reflexivity. Qed.

(** C6, amended: the service points at one socket at most.  [connect]
    always opens a new socket, with the token and the two logging
    listeners, and points the service at it; it closes nothing, so the
    sockets that were open stay open and [active] grows by the new one. *)
Theorem connect_opens_and_closes_nothing token st :
  let fresh_socket :=
    Transport.on "disconnect" LogDisconnected
      (Transport.on "connect" LogConnected (Transport.fresh token)) in
  fst (connect token st) = length (sockets st)
  ∧ socket (snd (connect token st)) = Some (length (sockets st))
  ∧ current (snd (connect token st)) = Some fresh_socket
  ∧ sockets (snd (connect token st)) = sockets st ++ [fresh_socket]
  ∧ active (snd (connect token st)) = active st ++ [fresh_socket].
Proof.
  intros fresh_socket. rewrite connect_sockets. fold fresh_socket.
  split; [done|]. split; [done|]. split; [|split; [done|]].
  - unfold current. simpl. apply list_lookup_middle. done.
  - unfold active. simpl. rewrite filter_app. f_equal.
Qed.

(** [disconnect] is the one place a socket is closed: the socket the
    service points at. *)
Lemma disconnect_closes_current st s :
  current st = Some s →
  socket (disconnect st) = None
  ∧ ∃ i, socket st = Some i
         ∧ sockets (disconnect st) !! i = Some (Transport.disconnect s).
Proof.
  unfold current, disconnect, on_this.
  destruct (socket st) as [i|] eqn:Hi; [|done]. simpl.
  intros Hs. split; [done|]. exists i. split; [done|].
  by rewrite list_lookup_alter_eq, Hs.
Qed.

End SocketFacts.

(* ===================================================================== *)
(** ** The page handlers *)
(* ===================================================================== *)

Create HintDb frame.

Section FrameRules.
Context {L X : Type} (f : world L → X).

Lemma preserves_ret {A} (a : A) : preserves f (ret a).
Proof. by intros w. Qed.

Lemma preserves_throw {A} e : preserves f (@throw L A e).
Proof. by intros w. Qed.

Lemma preserves_gets {A} (g : world L → A) : preserves f (gets g).
Proof. by intros w. Qed.

Lemma preserves_modify (g : world L → world L) :
  (∀ w, f (g w) = f w) → preserves f (modify g).
Proof. intros Hg w. apply Hg. Qed.

Lemma preserves_bind {A B} (m : M L A) (k : A → M L B) :
  preserves f m → (∀ a, preserves f (k a)) → preserves f (bind m k).
Proof.
  intros Hm Hk w. specialize (Hm w). unfold exec, bind in *.
  destruct (m w) as [[a|e] w']; simpl in *; [|done].
  rewrite <- Hm. apply Hk.
Qed.

Lemma preserves_bind_throws {A B} (m : M L A) (k : A → M L B) :
  preserves f m → always_throws m → preserves f (bind m k).
Proof.
  intros Hm Ht w. specialize (Hm w). destruct (Ht w) as [e He].
  unfold exec, bind in *.
  destruct (m w) as [[a|e'] w']; simpl in *; [discriminate|done].
Qed.

Lemma preserves_try_catch {A} (m : M L A) (h : jsval → M L A) :
  preserves f m → (∀ e, preserves f (h e)) → preserves f (try_catch m h).
Proof.
  intros Hm Hh w. specialize (Hm w). unfold exec, try_catch in *.
  destruct (m w) as [[a|e] w']; simpl in *; [done|].
  rewrite <- Hm. apply Hh.
Qed.

Lemma preserves_try_finally {A} (m : M L A) (c : M L unit) :
  preserves f m → preserves f c → preserves f (try_finally m c).
Proof.
  intros Hm Hc w. specialize (Hm w). unfold exec, try_finally in *.
  destruct (m w) as [r w']; simpl in *.
  specialize (Hc w'). unfold exec in Hc.
  destruct (c w') as [[[]|e] w'']; simpl in *; congruence.
Qed.

Lemma preserves_member v k : preserves f (member v k).
Proof. destruct v; by intros w. Qed.

Lemma preserves_if {A} (b : bool) (m1 m2 : M L A) :
  preserves f m1 → preserves f m2 → preserves f (if b then m1 else m2).
Proof. by destruct b. Qed.

End FrameRules.

Section ThrowRules.
Context {L : Type}.

Lemma always_throws_bind {A B} (m : M L A) (k : A → M L B) :
  always_throws m → always_throws (bind m k).
Proof.
  intros Ht w. destruct (Ht w) as [e He]. exists e.
  unfold bind. destruct (m w) as [[a|e'] w']; simpl in *; [discriminate|].
  by injection He as ->.
Qed.

Lemma always_throws_api_call api r :
  refuses api r → always_throws (@api_call L api r).
Proof.
  intros [e He] w. exists e.
  unfold api_call, bind, modify. simpl. by rewrite He.
Qed.

End ThrowRules.

#[local] Hint Resolve preserves_ret preserves_throw preserves_gets
  preserves_bind preserves_try_catch preserves_try_finally
  preserves_member preserves_if : frame.
#[local] Hint Extern 1 (preserves _ (modify _)) =>
  (apply preserves_modify; intros; reflexivity) : frame.
#[local] Hint Extern 1 (preserves _ (navigate _)) =>
  (apply preserves_modify; intros; reflexivity) : frame.
#[local] Hint Extern 1 (preserves _ (console_error _ _)) =>
  (apply preserves_modify; intros; reflexivity) : frame.

Section HandlerFacts.
Import RIDE_STATUS Scenario.

(** A call to the backend changes the trace and nothing else. *)
Lemma preserves_api_call {L X} (f : world L → X) api r :
  (∀ e w, f (record e w) = f w) → preserves f (api_call api r).
Proof.
  intros Hf w. unfold exec, api_call, bind, modify. simpl.
  destruct (api r); simpl; apply Hf.
Qed.

Lemma requestRide_keeps_rideStore {L} api body :
  preserves (@rideStore L) (rideService.requestRide api body).
Proof.
  unfold rideService.requestRide.
  apply preserves_bind; [by apply preserves_api_call | auto with frame].
Qed.

Lemma requestRide_throws {L} api body :
  refuses api (Request POST "/rides/request" (Some body)) →
  always_throws (@rideService.requestRide L api body).
Proof.
  intros Hr. unfold rideService.requestRide.
  by apply always_throws_bind, always_throws_api_call.
Qed.

Lemma handleConfirmBooking_failed nts api :
  (∀ body, refuses api (Request POST "/rides/request" (Some body))) →
  preserves rideStore (BookRide.handleConfirmBooking nts api).
Proof.
  intros Hr. unfold BookRide.handleConfirmBooking.
  do 3 (apply preserves_bind; [auto with frame | intros ?]).
  apply preserves_try_finally; [|auto with frame].
  apply preserves_try_catch; [|auto with frame].
  do 6 (apply preserves_bind; [auto with frame | intros ?]).
  apply preserves_bind_throws;
    [apply requestRide_keeps_rideStore | by apply requestRide_throws].
Qed.

Lemma handleCancelRide_keeps_rideStore api rideId :
  preserves rideStore (RideTracking.handleCancelRide api rideId).
Proof.
  unfold RideTracking.handleCancelRide, rideService.cancelRide.
  apply preserves_try_catch; [|auto with frame].
  apply preserves_bind; [|auto with frame].
  apply preserves_bind; [by apply preserves_api_call | auto with frame].
Qed.

Lemma handleStartRide_keeps_rideStore api rideId :
  preserves rideStore (AcceptRide.handleStartRide api rideId).
Proof.
  unfold AcceptRide.handleStartRide, rideService.startRide.
  apply preserves_bind; [auto with frame | intros ?].
  apply preserves_try_catch; [|auto with frame].
  apply preserves_bind; [|auto with frame].
  apply preserves_bind; [by apply preserves_api_call | auto with frame].
Qed.

Lemma handleCompleteRide_keeps_rideStore api rideId :
  preserves rideStore (AcceptRide.handleCompleteRide api rideId).
Proof.
  unfold AcceptRide.handleCompleteRide, rideService.completeRide.
  apply preserves_try_catch; [|auto with frame].
  apply preserves_bind; [|auto with frame].
  apply preserves_bind; [by apply preserves_api_call | auto with frame].
Qed.

(** What [handleCancelRide] does, call by call. *)
Lemma handleCancelRide_run api rideId (w : world RideTracking.state) :
  exec (RideTracking.handleCancelRide api rideId) w
  = World (rideStore w) (locationStore w) (socketService w)
      (trace w
       ++ Called (Request POST ("/rides/" +:+ rideId +:+ "/cancel") None)
       :: match api (Request POST ("/rides/" +:+ rideId +:+ "/cancel") None) with
          | Fulfilled _ => [Navigated "/"]
          | Rejected e => [ConsoleError "Failed to cancel ride:" e]
          end)
      (page w).
Proof.
  unfold exec, RideTracking.handleCancelRide, rideService.cancelRide,
    try_catch, bind, api_call, navigate, console_error, modify, record.
  simpl. destruct (api _); simpl; by rewrite <- app_assoc.
Qed.

(** What [handleCompleteRide] does, call by call. *)
Lemma handleCompleteRide_run api rideId (w : world AcceptRide.state) :
  exec (AcceptRide.handleCompleteRide api rideId) w
  = World (rideStore w) (locationStore w) (socketService w)
      (trace w
       ++ Called (Request POST ("/rides/" +:+ rideId +:+ "/complete") None)
       :: match api (Request POST ("/rides/" +:+ rideId +:+ "/complete") None) with
          | Fulfilled _ => [Navigated "/driver/dashboard"]
          | Rejected e => [ConsoleError "Failed to complete ride:" e]
          end)
      (page w).
Proof.
  unfold exec, AcceptRide.handleCompleteRide, rideService.completeRide,
    try_catch, bind, api_call, navigate, console_error, modify, record.
  simpl. destruct (api _); simpl; by rewrite <- app_assoc.
Qed.

(** The confirmation opened while the ride was Accepted is still on the
    screen after the ride topic reports the ride in progress, when the
    Cancel Ride button itself is gone. *)
Lemma confirmation_outlives_accepted :
  let opened := exec RideTracking.open_confirmation (tracking ACCEPTED false) in
  let started :=
    exec (RideTracking.on_ride_update (JObj (<["status" := JStr IN_PROGRESS]> ∅)))
         opened in
  RideTracking.cancel_button_shown (page (tracking ACCEPTED false)) = true
  ∧ RideTracking.status_is IN_PROGRESS (page started) = true
  ∧ RideTracking.cancel_button_shown (page started) = false
  ∧ RideTracking.confirmation_shown (page started) = true.
Proof. repeat split; vm_compute; reflexivity. Qed.

(** With the ride in progress the Cancel Ride button is not rendered. *)
Lemma in_progress_hides_cancel_button st :
  RideTracking.status_is IN_PROGRESS st = true →
  RideTracking.cancel_button_shown st = false.
Proof.
  unfold RideTracking.cancel_button_shown, RideTracking.status_is.
  destruct (member_opt (RideTracking.ride st) "status") as [| | | |x|]; try done.
  intros Hx. apply String.eqb_eq in Hx. subst x.
  apply andb_false_r.
Qed.

(** C2, as stated, fails: with the ride in progress [handleCancelRide]
    rejects nothing.  The cancel call goes to the backend and, once the
    backend accepts it, the page navigates home. *)
Lemma handleCancelRide_in_progress_goes_through :
  RideTracking.status_is IN_PROGRESS (page (tracking IN_PROGRESS true)) = true
  ∧ StatusOrder.permitted IN_PROGRESS CANCELLED = false
  ∧ trace (exec (RideTracking.handleCancelRide accepting "42")
                (tracking IN_PROGRESS true))
    = [Called (Request POST "/rides/42/cancel" None); Navigated "/"].
Proof. repeat split; vm_compute; reflexivity. Qed.

(** C2, amended: while the ride is in progress the page does not render
    the Cancel Ride button, and that is the only check; [handleCancelRide]
    looks at no status.  Run while the ride is in progress it sends the
    cancel call like at any other time; it changes neither the page's
    ride, whose status stays InProgress, nor the ride store; it navigates
    home when the backend accepts and logs the error when the backend
    refuses. *)
Theorem handleCancelRide_in_progress api rideId (w : world RideTracking.state) :
  RideTracking.status_is IN_PROGRESS (page w) = true →
  let w' := exec (RideTracking.handleCancelRide api rideId) w in
  let call := Request POST ("/rides/" +:+ rideId +:+ "/cancel") None in
  RideTracking.cancel_button_shown (page w) = false
  ∧ RideTracking.status_is IN_PROGRESS (page w') = true
  ∧ page w' = page w
  ∧ rideStore w' = rideStore w
  ∧ trace w'
    = trace w
      ++ Called call
      :: match api call with
         | Fulfilled _ => [Navigated "/"]
         | Rejected e => [ConsoleError "Failed to cancel ride:" e]
         end.
Proof.
  intros Hs w' call. subst w'. rewrite handleCancelRide_run. simpl.
  split; [by apply in_progress_hides_cancel_button | by repeat split].
Qed.

Lemma handleCancelRide_in_progress_witness :
  RideTracking.status_is IN_PROGRESS (page (tracking IN_PROGRESS true)) = true
  ∧ RideTracking.status_is IN_PROGRESS
      (page (exec (RideTracking.handleCancelRide unreachable "42")
                  (tracking IN_PROGRESS true)))
    = true.
Proof.
  split; [reflexivity|].
  apply (handleCancelRide_in_progress unreachable "42" (tracking IN_PROGRESS true)).
  reflexivity.
Defined.

(** On success [handleConfirmBooking] does write the store: the ride the
    backend returned becomes the current ride. *)
Lemma handleConfirmBooking_accepted :
  let w' := exec (BookRide.handleConfirmBooking (fun _ => "0") accepting) booking in
  RideStore.currentRide (rideStore booking) = ride_42 COMPLETED
  ∧ RideStore.currentRide (rideStore w') = JObj ∅
  ∧ last (trace w') = Some (Navigated "/ride/undefined").
Proof. repeat split; vm_compute; reflexivity. Qed.

(** What [handleConfirmBooking] does when the backend refuses the call
    it makes; with a place that is [null] or [undefined] it makes none. *)
Lemma handleConfirmBooking_refused_run nts api e (w : world BookRide.state) :
  let pickup := LocationStore.pickupLocation (locationStore w) in
  let dropoff := LocationStore.dropoffLocation (locationStore w) in
  api (Edge.booking_call pickup dropoff) = Rejected e →
  exec (BookRide.handleConfirmBooking nts api) w
  = World (rideStore w) (locationStore w) (socketService w)
      (trace w
       ++ (if Edge.nullish pickup || Edge.nullish dropoff
           then [ConsoleError "Failed to book ride:" TypeError]
           else [Called (Edge.booking_call pickup dropoff);
                 ConsoleError "Failed to book ride:" e]))
      (BookRide.setLoading false (page w)).
Proof.
  intros pickup dropoff Hr. subst pickup dropoff.
  unfold exec, BookRide.handleConfirmBooking, rideService.requestRide, bind, gets,
    try_finally, try_catch, api_call, modify, console_error, record,
    Edge.booking_call in *.
  simpl.
  destruct (LocationStore.pickupLocation (locationStore w)) as [| |b|x|s|p];
    destruct (LocationStore.dropoffLocation (locationStore w)) as [| |b'|x'|s'|d];
    simpl in *; try done;
    rewrite Hr; simpl; by rewrite <- app_assoc.
Qed.

(** C7: when the backend refuses the call a lifecycle handler makes, the
    handler applies nothing.  [handleConfirmBooking], refused the booking
    it posts, ends with the ride store, and so the current ride, it
    started with, and has only logged the error; [handleCancelRide],
    [handleStartRide] and [handleCompleteRide], each refused its own
    call, end with the ride store and the page as they were.  Each
    handler answers for its own call only. *)
Theorem failed_call_keeps_rideStore number_to_string api rideId :
  (∀ (w : world BookRide.state) e,
     api (Edge.booking_call (LocationStore.pickupLocation (locationStore w))
                            (LocationStore.dropoffLocation (locationStore w)))
     = Rejected e →
     let w' := exec (BookRide.handleConfirmBooking number_to_string api) w in
     rideStore w' = rideStore w
     ∧ RideStore.currentRide (rideStore w') = RideStore.currentRide (rideStore w)
     ∧ trace w'
       = trace w
         ++ (if Edge.nullish (LocationStore.pickupLocation (locationStore w))
                || Edge.nullish (LocationStore.dropoffLocation (locationStore w))
             then [ConsoleError "Failed to book ride:" TypeError]
             else [Called (Edge.booking_call
                             (LocationStore.pickupLocation (locationStore w))
                             (LocationStore.dropoffLocation (locationStore w)));
                   ConsoleError "Failed to book ride:" e]))
  ∧ (∀ (w : world RideTracking.state),
       refuses api (Request POST ("/rides/" +:+ rideId +:+ "/cancel") None) →
       rideStore (exec (RideTracking.handleCancelRide api rideId) w) = rideStore w
       ∧ page (exec (RideTracking.handleCancelRide api rideId) w) = page w)
  ∧ (∀ (w : world AcceptRide.state),
       refuses api (Request POST ("/rides/" +:+ rideId +:+ "/start") None) →
       rideStore (exec (AcceptRide.handleStartRide api rideId) w) = rideStore w
       ∧ page (exec (AcceptRide.handleStartRide api rideId) w) = page w)
  ∧ (∀ (w : world AcceptRide.state),
       refuses api (Request POST ("/rides/" +:+ rideId +:+ "/complete") None) →
       rideStore (exec (AcceptRide.handleCompleteRide api rideId) w) = rideStore w
       ∧ page (exec (AcceptRide.handleCompleteRide api rideId) w) = page w).
Proof.
  split; [|split; [|split]].
  - intros w e Hr w'. subst w'.
    by rewrite (handleConfirmBooking_refused_run _ _ _ _ Hr).
  - intros w [e He]. by rewrite handleCancelRide_run.
  - intros w [e He].
    unfold exec, AcceptRide.handleStartRide, rideService.startRide, bind, gets,
      try_catch, api_call, modify, console_error, record.
    simpl. by rewrite He.
  - intros w [e He]. by rewrite handleCompleteRide_run.
Qed.

Lemma failed_call_keeps_rideStore_witness :
  no_main_street
    (Edge.booking_call (LocationStore.pickupLocation (locationStore booking))
                       (LocationStore.dropoffLocation (locationStore booking)))
  = Rejected (JStr "No drivers at Main St")
  ∧ no_main_street (Request POST "/rides/42/cancel" None)
    = Fulfilled (Response (JObj ∅))
  ∧ rideStore (exec (BookRide.handleConfirmBooking (fun _ => "0") no_main_street)
                    booking)
    = completed_store
  ∧ refuses unreachable (Request POST "/rides/42/start" None)
  ∧ page (exec (AcceptRide.handleStartRide unreachable "42") driving) = page driving.
Proof.
  assert (Hbook :
            no_main_street
              (Edge.booking_call
                 (LocationStore.pickupLocation (locationStore booking))
                 (LocationStore.dropoffLocation (locationStore booking)))
            = Rejected (JStr "No drivers at Main St")) by reflexivity.
  assert (Hstart : refuses unreachable (Request POST "/rides/42/start" None))
    by (by eexists).
  split; [exact Hbook|]. split; [reflexivity|].
  pose proof (failed_call_keeps_rideStore (fun _ => "0") no_main_street "42")
    as (Hconfirm & _).
  pose proof (failed_call_keeps_rideStore (fun _ => "0") unreachable "42")
    as (_ & _ & Hs & _).
  split; [exact (proj1 (Hconfirm booking _ Hbook))|].
  split; [exact Hstart | exact (proj2 (Hs driving Hstart))].
Defined.

(** The subscription effect of a freshly opened tracking page of ride 42
    registers the two listeners of the scenario; leaving the page closes
    the socket and leaves the service without listeners. *)
Lemma tracking_page_subscribes_and_leaves :
  let opened :=
    World RideStore.initial LocationStore.initial connected []
          RideTracking.initial in
  let left :=
    exec (RideTracking.unmount (fun _ => "0") "42" JNull) (tracking ACCEPTED true) in
  socketService (exec (RideTracking.subscribe (fun _ => "0") "42") opened) = subscribed
  ∧ SocketService.socket (socketService left) = None
  ∧ SocketService.handlers_of "ride_42_update" (socketService left) = []
  ∧ SocketService.active (socketService left) = [].
Proof. repeat split; vm_compute; reflexivity. Qed.







End HandlerFacts.

(* ===================================================================== *)
(** ** The geolocation watch *)
(* ===================================================================== *)

Section GeolocationFacts.
Import useGeolocation Scenario.

Lemma deliver_all_snoc ds d w :
  deliver_all (ds ++ [d]) w = exec (deliver d) (deliver_all ds w).
Proof. unfold deliver_all. by rewrite foldl_app. Qed.

(** A failed reading leaves the stored location alone. *)
Lemma failure_keeps_location message w :
  locationStore (exec (deliver (Failure message)) w) = locationStore w.
Proof. reflexivity. Qed.

(** C9: each reading overwrites the one current location, so after any
    run of readings the store holds the coordinates of the last one. *)
Theorem last_reading_is_current ps p w :
  LocationStore.currentLocation
    (locationStore (deliver_all (Reading <$> (ps ++ [p])) w))
  = JObj (<["lat" := JNum (latitude (coords p))]>
         (<["lng" := JNum (longitude (coords p))]> ∅)).
Proof. rewrite fmap_app. simpl. by rewrite deliver_all_snoc. Qed.

(** The three readings of the specification's scenario. *)
Example third_reading_is_current :
  LocationStore.currentLocation
    (locationStore
       (deliver_all
          [Reading (reading 40.0 (-74.0)); Reading (reading 40.1 (-74.1));
           Reading (reading 40.2 (-74.2))]
          watching))
  = JObj (<["lat" := JNum 40.2]> (<["lng" := JNum (-74.2)]> ∅)).
Proof. reflexivity. Qed.

End GeolocationFacts.

(* ===================================================================== *)
(** ** The place search *)
(* ===================================================================== *)

Section SearchFacts.
Import LocationPicker Scenario.
Local Open Scope Z_scope.

(** A call made before the pending window has ended only replaces the
    pending call. *)
Lemma call_at_before_end now text t :
  helpers.due now (searchLocations t) = None →
  call_at now text t
  = Timed (page t) (helpers.call now text (searchLocations t)).
Proof. intros Hq. unfold call_at, elapse. by rewrite Hq. Qed.

Lemma due_after_call now now' text (d : helpers.debounced string) :
  now' < now + helpers.delay d →
  helpers.due now' (helpers.call now text d) = None.
Proof.
  intros Hlt. unfold helpers.due, helpers.call. simpl.
  destruct (Z.leb_spec (now + helpers.delay d) now'); [lia|done].
Qed.

(** Calls that each come within the window of the one before never let
    the wrapped function run: the page is untouched and the last call is
    the pending one. *)
Lemma calls_within_window calls c t :
  within_window (helpers.delay (searchLocations t)) (calls ++ [c]) = true →
  match calls ++ [c] with
  | first :: _ => helpers.due (fst first) (searchLocations t) = None
  | [] => True
  end →
  foldl (fun acc c => call_at (fst c) (snd c) acc) t (calls ++ [c])
  = Timed (page t) (helpers.call (fst c) (snd c) (searchLocations t)).
Proof.
  revert t. induction calls as [|c1 cs IH]; intros t Hw Hq.
  - simpl in *. by apply call_at_before_end.
  - simpl in Hw, Hq. simpl foldl.
    rewrite (call_at_before_end _ _ _ Hq).
    apply andb_prop in Hw as [Hgap Hw].
    rewrite IH; simpl; [done|done|].
    destruct (cs ++ [c]) as [|c2 rest] eqn:Hrest; [done|].
    apply andb_prop in Hgap as [_ Hgap].
    apply due_after_call. simpl. by apply Z.ltb_lt.
Qed.

(** When the last text in the window is empty no request reaches the
    provider; the first render's own call [searchLocations('')] is such
    a window. *)
Lemma empty_text_asks_nothing :
  within_window 500 [(0, "")] = true
  ∧ requested (page (run [(0, "")] (start (mounted true)))) = []
  ∧ within_window 500 [(0, "a"); (100, "")] = true
  ∧ requested (page (run [(0, "a"); (100, "")] (start (mounted true)))) = []
  ∧ requested (typing true []) = [].
Proof. repeat split; vm_compute; reflexivity. Qed.

(** What one debounced [searchLocations] would do if it were kept across
    renders: of the calls made to it within its 500 ms window only the
    last one runs the search, once the window has ended.  A text that is
    not empty then makes exactly one request to the provider, with that
    text (none when the Places library is missing); an empty text makes
    no request and clears the suggestions. *)
Theorem debounced_search_runs_last_call calls now text e :
  within_window 500 (calls ++ [(now, text)]) = true →
  page (run (calls ++ [(now, text)]) (start e)) = search text e
  ∧ requested (search text e)
    = requested e
      ++ (if String.eqb text "" then []
          else if provider_ready e then [text] else [])
  ∧ (text = "" → suggestions (search text e) = []).
Proof.
  intros Hw. split; [|split].
  - unfold run. rewrite calls_within_window.
    + unfold settle, elapse, helpers.due. simpl.
      by rewrite Z.leb_refl.
    + exact Hw.
    + by destruct (calls ++ [(now, text)]).
  - unfold search. destruct (String.eqb text ""); simpl.
    + by rewrite app_nil_r.
    + destruct (provider_ready e); simpl; [done|by rewrite app_nil_r].
  - by intros ->.
Qed.

Lemma debounced_search_runs_last_call_witness :
  within_window 500 ([(0, "a"); (100, "ab")] ++ [(200, "abc")]) = true
  ∧ requested
      (page (run ([(0, "a"); (100, "ab")] ++ [(200, "abc")]) (start (mounted true))))
    = ["abc"].
Proof.
  split; [reflexivity|].
  destruct (debounced_search_runs_last_call
              [(0, "a"); (100, "ab")] 200 "abc" (mounted true) eq_refl)
    as (Hpage & Hreq & _).
  rewrite Hpage. exact Hreq.
Defined.

Lemma search_ready text e : provider_ready (search text e) = provider_ready e.
Proof.
  destruct e as [q s l [] rq er]; unfold search; simpl;
    by destruct (String.eqb text "").
Qed.

Lemma search_asks text e :
  provider_ready e = true →
  length (requested (search text e))
  = (length (requested e) + (if Edge.asks text then 1 else 0))%nat.
Proof.
  intros Hr. unfold search, Edge.asks. destruct (String.eqb text ""); simpl.
  - lia.
  - rewrite Hr. simpl. rewrite length_app. simpl. lia.
Qed.

Lemma due_waiting now (d : helpers.debounced string) text :
  helpers.due now d = Some text → Edge.waiting d = Edge.asks text.
Proof.
  unfold helpers.due, Edge.waiting.
  destruct (helpers.pending d) as [[ends t]|]; [|done].
  destruct (ends <=? now); [|done]. by intros [= ->].
Qed.

Lemma length_filter_waiting_cons d l :
  length (filter (fun d => Edge.waiting d) (d :: l))
  = ((if Edge.waiting d then 1 else 0)
     + length (filter (fun d => Edge.waiting d) l))%nat.
Proof. rewrite filter_cons. by destruct (Edge.waiting d). Qed.

(** Letting the clock run moves requests from the open windows to the
    provider and loses none. *)
Lemma elapse_fold now l acc :
  provider_ready (shown acc) = true →
  let res :=
    foldl (fun acc d =>
             match helpers.due now d with
             | Some text => Rendered (search text (shown acc)) (made acc)
             | None => Rendered (shown acc) (made acc ++ [d])
             end) acc l in
  provider_ready (shown res) = true
  ∧ Edge.backlog res
    = (Edge.backlog acc + length (filter (fun d => Edge.waiting d) l))%nat.
Proof.
  revert acc. induction l as [|d l IH]; intros acc Hr; simpl.
  - split; [done|]. lia.
  - rewrite length_filter_waiting_cons.
    destruct (helpers.due now d) as [text|] eqn:Hd.
    + destruct (IH (Rendered (search text (shown acc)) (made acc))) as [Hr' Hb].
      { simpl. by rewrite search_ready. }
      split; [done|]. rewrite Hb. unfold Edge.backlog. simpl.
      rewrite (search_asks _ _ Hr), (due_waiting _ _ _ Hd). lia.
    + destruct (IH (Rendered (shown acc) (made acc ++ [d]))) as [Hr' Hb]; [done|].
      split; [done|]. rewrite Hb. unfold Edge.backlog. simpl.
      rewrite filter_app, length_app, length_filter_waiting_cons. simpl. lia.
Qed.

Lemma elapse_all_backlog now r :
  provider_ready (shown r) = true →
  provider_ready (shown (elapse_all now r)) = true
  ∧ Edge.backlog (elapse_all now r) = Edge.backlog r.
Proof.
  intros Hr. unfold elapse_all.
  destruct (elapse_fold now (made r) (Rendered (shown r) []) Hr) as [Hr' Hb].
  split; [exact Hr'|]. rewrite Hb. unfold Edge.backlog. simpl. lia.
Qed.

(** Typing a text opens a window of its own and closes none. *)
Lemma type_at_backlog now text r :
  provider_ready (shown r) = true →
  provider_ready (shown (type_at now text r)) = true
  ∧ Edge.backlog (type_at now text r)
    = (Edge.backlog r + (if Edge.asks text then 1 else 0))%nat.
Proof.
  intros Hr. destruct (elapse_all_backlog now r Hr) as [Hr' Hb].
  unfold type_at. revert Hr' Hb. generalize (elapse_all now r). intros r1 Hr' Hb.
  split; [exact Hr'|]. rewrite <- Hb. unfold Edge.backlog. simpl.
  rewrite filter_app, length_app, length_filter_waiting_cons. simpl.
  unfold Edge.waiting. simpl. destruct (Edge.asks text); simpl; lia.
Qed.

Lemma settle_fold l acc :
  provider_ready (shown acc) = true →
  let res :=
    foldl (fun acc d =>
             match helpers.pending d with
             | Some (_, text) => Rendered (search text (shown acc)) []
             | None => acc
             end) acc l in
  provider_ready (shown res) = true
  ∧ length (requested (shown res))
    = (length (requested (shown acc))
       + length (filter (fun d => Edge.waiting d) l))%nat.
Proof.
  revert acc. induction l as [|d l IH]; intros acc Hr; simpl.
  - split; [done|]. lia.
  - rewrite length_filter_waiting_cons. unfold Edge.waiting at 1.
    destruct (helpers.pending d) as [[ends text]|].
    + destruct (IH (Rendered (search text (shown acc)) [])) as [Hr' Hb].
      { simpl. by rewrite search_ready. }
      split; [done|]. rewrite Hb. simpl. rewrite (search_asks _ _ Hr). lia.
    + destruct (IH acc Hr) as [Hr' Hb]. split; [done|]. rewrite Hb. lia.
Qed.

Lemma typing_fold keys r :
  provider_ready (shown r) = true →
  let res := foldl (fun acc k => type_at (fst k) (snd k) acc) r keys in
  provider_ready (shown res) = true
  ∧ Edge.backlog res
    = (Edge.backlog r + length (filter (fun k => Edge.asks (snd k)) keys))%nat.
Proof.
  revert r. induction keys as [|[now text] keys IH]; intros r Hr; simpl.
  - split; [done|]. lia.
  - destruct (type_at_backlog now text r Hr) as [Hr' Hb].
    destruct (IH _ Hr') as [Hr'' Hb'']. split; [done|].
    rewrite Hb'', Hb, filter_cons. simpl. destruct (Edge.asks text); simpl; lia.
Qed.

(** Whatever is typed and whenever, the component makes as many requests
    as texts that are not empty were typed. *)
Lemma typing_asks_for_every_text keys :
  length (requested (typing true keys))
  = length (filter (fun k => Edge.asks (snd k)) keys).
Proof.
  unfold typing, settle_all.
  set (r0 := Rendered (mounted true) [helpers.call 0 "" (helpers.debounce 500)]).
  destruct (typing_fold keys r0 eq_refl) as [Hr Hb].
  destruct (settle_fold
              (made (foldl (fun acc k => type_at (fst k) (snd k) acc) r0 keys))
              (Rendered
                 (shown (foldl (fun acc k => type_at (fst k) (snd k) acc) r0 keys)) [])
              Hr) as [_ Hlen].
  simpl in Hlen. rewrite Hlen. unfold Edge.backlog in Hb. rewrite Hb. reflexivity.
Qed.

(** C3: the component does not do what the claim says.  The three texts
    a, ab, abc typed within one 500 ms window reach the provider as
    three requests, where the claim has one, for abc: each render makes
    a debounced [searchLocations] of its own, so no call ever restarts
    the window of another; kept across renders, the one debounced
    function would have sent abc alone.  In general every text typed that
    is not empty makes its own request, whatever the timing. *)
Theorem every_keystroke_reaches_provider :
  within_window 500 [(100, "a"); (200, "ab"); (300, "abc")] = true
  ∧ requested (typing true [(100, "a"); (200, "ab"); (300, "abc")])
    = ["a"; "ab"; "abc"]
  ∧ requested (page (run [(100, "a"); (200, "ab"); (300, "abc")]
                         (start (mounted true))))
    = ["abc"]
  ∧ ∀ keys, length (requested (typing true keys))
            = length (filter (fun k => Edge.asks (snd k)) keys).
Proof.
  split; [reflexivity|]. split; [by vm_compute|]. split; [by vm_compute|].
  apply typing_asks_for_every_text.
Qed.

Lemma arrive_all_snoc l a e :
  arrive_all (l ++ [a]) e = arrive a (arrive_all l e).
Proof. unfold arrive_all. by rewrite foldl_app. Qed.

(** C4, as stated, fails: the answer to "a" that arrives after the answer
    to "ab" was shown takes its place. *)
Lemma late_answer_overwrites :
  let asked := getPlacePredictions "ab" (getPlacePredictions "a" (mounted true)) in
  let shown_ab := arrive (Answer 1 for_ab "OK") asked in
  requested asked = ["a"; "ab"]
  ∧ suggestions shown_ab = for_ab
  ∧ suggestions (arrive (Answer 0 for_a "OK") shown_ab) = for_a
  ∧ for_a ≠ for_ab.
Proof. repeat split; try (vm_compute; reflexivity). discriminate. Qed.

(** C4, amended: the callback keeps no request number.  Every answer
    with status OK is shown when it arrives, so the suggestions on
    display are those of the OK answer that arrived last, whichever
    request it answers; an answer with another status leaves them as
    they are. *)
Theorem last_arrival_is_shown answers e :
  suggestions (arrive_all answers e)
  = match last (filter (fun a => is_ok a) answers) with
    | Some a => predictions a
    | None => suggestions e
    end.
Proof.
  induction answers as [|a l IH] using rev_ind; [done|].
  rewrite arrive_all_snoc, filter_app.
  unfold arrive, on_predictions.
  destruct (is_ok a) eqn:Hok.
  - rewrite filter_cons_True by (by rewrite Hok).
    rewrite filter_nil, last_snoc.
    unfold is_ok in Hok. by rewrite Hok.
  - rewrite filter_cons_False by (rewrite Hok; intros []).
    rewrite filter_nil, app_nil_r. unfold is_ok in Hok. by rewrite Hok.
Qed.

End SearchFacts.

(* ===================================================================== *)
(** ** More on the ride store *)
(* ===================================================================== *)

Section RideStoreMore.
Import RideStore.

(** X1: rides added to the history come out newest first, in front of
    what the history held, and adding them touches neither the current
    ride nor the nearby drivers. *)
Theorem addToHistory_newest_first rides st :
  let st' := foldl (fun acc r => addToHistory r acc) st rides in
  rideHistory st' = reverse rides ++ rideHistory st
  ∧ currentRide st' = currentRide st
  ∧ nearbyDrivers st' = nearbyDrivers st.
Proof.
  revert st. induction rides as [|r rides IH]; intros st; [done|].
  simpl. destruct (IH (addToHistory r st)) as (Hh & Hc & Hd).
  rewrite Hh, Hc, Hd. simpl.
  by rewrite reverse_cons, <- app_assoc.
Qed.

(** X2: a status update wipes out the update before it: two updates in
    a row leave the store exactly as the second alone would, so the same
    update twice is the same as once. *)
Theorem updateRideStatus_absorbs s1 s2 st :
  updateRideStatus s2 (updateRideStatus s1 st) = updateRideStatus s2 st.
Proof.
  unfold updateRideStatus, set_currentRide. simpl.
  destruct (truthy (currentRide st)); simpl; [|done].
  by rewrite insert_insert_eq.
Qed.

(** X3: once the current ride is cleared, no run of status updates
    brings a ride back: the store stays as [clearCurrentRide] left it. *)
Theorem cleared_store_stays_cleared statuses st :
  updateRideStatus_all statuses (clearCurrentRide st) = clearCurrentRide st.
Proof.
  induction statuses as [|s ss IH] using rev_ind; [done|].
  unfold updateRideStatus_all in *. by rewrite foldl_app, IH.
Qed.

End RideStoreMore.

(* ===================================================================== *)
(** ** More on the socket service *)
(* ===================================================================== *)

Section SocketMore.
Import SocketService SocketCalls.

Lemma filter_event_after_off (event other : string) (l : list (string * listener)) :
  filter (fun x => String.eqb (fst x) other)
         (filter (fun x => negb (String.eqb (fst x) event)) l)
  = if String.eqb other event then []
    else filter (fun x => String.eqb (fst x) other) l.
Proof.
  induction l as [|[e h] l IH]; [by destruct (String.eqb other event)|].
  rewrite (filter_cons (fun x => negb (String.eqb (fst x) event))).
  rewrite (filter_cons (fun x => String.eqb (fst x) other) (e, h) l).
  simpl.
  destruct (String.eqb_spec e event) as [->|Hne]; simpl.
  - rewrite IH.
    destruct (String.eqb_spec other event) as [->|Hne']; [done|].
    destruct (String.eqb_spec event other) as [->|_]; [done|].
    simpl. done.
  - rewrite filter_cons, IH. simpl.
    destruct (String.eqb_spec other event) as [->|Hne']; [|done].
    destruct (String.eqb_spec e event) as [?|_]; [done|].
    simpl. done.
Qed.

Lemma transport_handlers_off event other s :
  Transport.handlers_of other (Transport.off event s)
  = if String.eqb other event then [] else Transport.handlers_of other s.
Proof.
  unfold Transport.handlers_of, Transport.off. simpl.
  rewrite filter_event_after_off. by destruct (String.eqb other event).
Qed.

Lemma off_current event st s :
  current st = Some s → current (off event st) = Some (Transport.off event s).
Proof.
  intros Hs. unfold off. destruct (socket st) eqn:Hsock.
  - by apply on_this_current.
  - unfold current in Hs. by rewrite Hsock in Hs.
Qed.

Lemma off_dangling event st : current st = None → off event st = st.
Proof.
  intros Hnone. unfold off. destruct (socket st); [|done].
  by apply on_this_dangling.
Qed.



Lemma on_this_sound f st :
  (∀ s, Transport.is_open (f s) = Transport.is_open s) →
  sound st → sound (on_this f st).
Proof.
  intros Hf Hs i Hi. unfold on_this in *.
  destruct (socket st) as [j|] eqn:Hj; [|by rewrite Hj in Hi].
  simpl in Hi. injection Hi as <-.
  destruct (Hs j Hj) as (s & Hl & Ho). exists (f s). simpl.
  by rewrite list_lookup_alter_eq, Hl, Hf.
Qed.

Lemma step_sound c st : sound st → sound (step c st).
Proof.
  intros Hs. destruct c as [token| |event h|event|event d]; unfold step.
  - rewrite connect_sockets. intros i Hi. simpl in Hi. injection Hi as <-.
    eexists. simpl. split; [by apply list_lookup_middle|done].
  - unfold disconnect. destruct (socket st) eqn:Hsock; [|done].
    intros i Hi. discriminate.
  - unfold on. destruct (socket st) eqn:Hsock; [|done]. by apply on_this_sound.
  - unfold off. destruct (socket st) eqn:Hsock; [|done]. by apply on_this_sound.
  - unfold emit. destruct (socket st) eqn:Hsock; [|done]. by apply on_this_sound.
Qed.

(** X5: whatever calls are made on the service, in whatever order, its
    socket reference is either empty or points at a socket that exists
    and has not been closed: the service never keeps a socket it closed. *)
Theorem service_socket_is_open calls :
  sound (run calls initial).
Proof.
  induction calls as [|c calls IH] using rev_ind.
  - intros i Hi. discriminate.
  - unfold run in *. rewrite foldl_app. simpl. by apply step_sound.
Qed.

(** X6: [disconnect] empties the reference, doing it again changes
    nothing, and until the next [connect] the calls [on], [off] and
    [emit] are dropped without a trace. *)
Theorem disconnected_service_drops_calls event h d st :
  socket (disconnect st) = None
  ∧ disconnect (disconnect st) = disconnect st
  ∧ on event h (disconnect st) = disconnect st
  ∧ off event (disconnect st) = disconnect st
  ∧ emit event d (disconnect st) = disconnect st
  ∧ handlers_of event (disconnect st) = [].
Proof.
  assert (Hnone : socket (disconnect st) = None).
  { unfold disconnect. by destruct (socket st) eqn:Hs. }
  unfold on, off, emit, handlers_of, current.
  rewrite Hnone. repeat split.
  unfold disconnect at 1. by rewrite Hnone.
Qed.

Lemma disconnect_after_connect token st :
  disconnect (snd (connect token st))
  = mk None
       (sockets st
        ++ [Transport.disconnect
              (Transport.on "disconnect" LogDisconnected
                 (Transport.on "connect" LogConnected (Transport.fresh token)))]).
Proof.
  rewrite connect_sockets. unfold disconnect, on_this. simpl.
  by rewrite alter_last.
Qed.

Lemma active_with_closed st s :
  Transport.is_open s = false →
  active (mk None (sockets st ++ [s])) = active st.
Proof.
  intros Hc. unfold active. simpl.
  rewrite filter_app, filter_cons_False by (rewrite Hc; intros []).
  by rewrite filter_nil, app_nil_r.
Qed.

(** X7: [connect] followed by [disconnect] closes the socket it opened:
    the open sockets are those that were open before, and the service
    points at none. *)
Theorem connect_then_disconnect token st :
  active (disconnect (snd (connect token st))) = active st
  ∧ socket (disconnect (snd (connect token st))) = None.
Proof.
  rewrite disconnect_after_connect. split; [|done].
  by apply active_with_closed.
Qed.

Lemma emit_current event d st s :
  current st = Some s → current (emit event d st) = Some (Transport.emit event d s).
Proof.
  intros Hs. unfold emit. destruct (socket st) eqn:Hsock.
  - by apply on_this_current.
  - unfold current in Hs. by rewrite Hsock in Hs.
Qed.

Lemma emit_dangling event d st : current st = None → emit event d st = st.
Proof.
  intros Hnone. unfold emit. destruct (socket st); [|done].
  by apply on_this_dangling.
Qed.

(** X8: messages emitted while the service has a socket are handed to
    that socket in the order of the calls, after what it had sent, and
    its listeners are untouched; without a socket every message is dropped. *)
Theorem emit_all_in_order messages st :
  match current st with
  | Some s =>
      ∃ s', current (emit_all messages st) = Some s'
            ∧ Transport.sent s' = Transport.sent s ++ messages
            ∧ Transport.listeners s' = Transport.listeners s
            ∧ Transport.is_open s' = Transport.is_open s
  | None => emit_all messages st = st
  end.
Proof.
  induction messages as [|[event d] l IH] using rev_ind.
  - destruct (current st) as [s|] eqn:Hs; [|done].
    exists s. simpl. by rewrite Hs, app_nil_r.
  - unfold emit_all in *. rewrite foldl_app. simpl.
    destruct (current st) as [s|] eqn:Hs.
    + destruct IH as (s' & Hc & Hsent & Hl & Ho).
      exists (Transport.emit event d s').
      rewrite (emit_current _ _ _ _ Hc). simpl.
      by rewrite Hsent, Hl, Ho, app_assoc.
    + rewrite IH. by apply emit_dangling.
Qed.

(** X9: a page that runs the effect of [useSocket] while signed in and
    then its cleanup leaves the open sockets as they were and the
    service without a socket, whatever socket the service held before;
    when not signed in, or without a token, the effect does nothing. *)
Theorem useSocket_effect_then_cleanup {L} isAuthenticated token (w : world L) :
  if isAuthenticated && truthy token
  then
    active (socketService (exec useSocket.cleanup
                             (exec (useSocket.effect isAuthenticated token) w)))
    = active (socketService w)
    ∧ socket (socketService (exec useSocket.cleanup
                               (exec (useSocket.effect isAuthenticated token) w)))
      = None
  else exec (useSocket.effect isAuthenticated token) w = w.
Proof.
  unfold useSocket.effect.
  destruct (isAuthenticated && truthy token); [|done].
  unfold useSocket.cleanup, exec, modify, with_socketService.
  cbn [fst snd socketService].
  rewrite disconnect_after_connect. split; [|done].
  by apply active_with_closed.
Qed.

End SocketMore.

(* ===================================================================== *)
(** ** More on the booking page *)
(* ===================================================================== *)

Section BookingMore.
Import Edge.

Lemma exec_try_finally_modify {L A} (m : M L A) (g : world L → world L) w :
  exec (try_finally m (modify g)) w = g (exec m w).
Proof. unfold exec, try_finally, modify. by destruct (m w). Qed.

Lemma exec_bind_gets {L A B} (f : world L → A) (k : A → M L B) w :
  exec (bind (gets f) k) w = exec (k (f w)) w.
Proof. reflexivity. Qed.

Lemma exec_bind_modify {L B} (g : world L → world L) (k : unit → M L B) w :
  exec (bind (modify g) k) w = exec (k tt) (g w).
Proof. reflexivity. Qed.

(** X10: the loading flag is down when a handler with a [finally] has
    run, whether the backend accepted, refused, or a property read threw:
    after [handleConfirmBooking] and after both [loadRideDetails]; after
    [handleEstimateFare] too, unless a place was missing and the handler
    returned at once. *)
Theorem loading_is_cleared number_to_string api rideId :
  (∀ w, BookRide.loading (page (exec (BookRide.handleConfirmBooking number_to_string api) w))
        = false)
  ∧ (∀ w, RideTracking.loading (page (exec (RideTracking.loadRideDetails api rideId) w))
          = false)
  ∧ (∀ w, AcceptRide.loading (page (exec (AcceptRide.loadRideDetails api rideId) w))
          = false)
  ∧ (∀ w, BookRide.loading (page (exec (BookRide.handleEstimateFare api) w))
          = if truthy (LocationStore.pickupLocation (locationStore w))
               && truthy (LocationStore.dropoffLocation (locationStore w))
            then false
            else BookRide.loading (page w)).
Proof.
  split; [|split; [|split]]; intros w.
  - unfold BookRide.handleConfirmBooking.
    by rewrite !exec_bind_gets, exec_bind_modify, exec_try_finally_modify.
  - unfold RideTracking.loadRideDetails. by rewrite exec_try_finally_modify.
  - unfold AcceptRide.loadRideDetails. by rewrite exec_try_finally_modify.
  - unfold BookRide.handleEstimateFare. rewrite !exec_bind_gets.
    destruct (truthy (LocationStore.pickupLocation (locationStore w)));
      destruct (truthy (LocationStore.dropoffLocation (locationStore w)));
      simpl; try done.
    by rewrite exec_bind_modify, exec_try_finally_modify.
Qed.

(** X11: with the pickup or the dropoff place missing, [handleEstimateFare]
    returns at once: no call goes out and nothing changes. *)
Theorem handleEstimateFare_needs_both_places api (w : world BookRide.state) :
  truthy (LocationStore.pickupLocation (locationStore w))
  && truthy (LocationStore.dropoffLocation (locationStore w)) = false →
  exec (BookRide.handleEstimateFare api) w = w.
Proof.
  intros Hg. unfold exec, BookRide.handleEstimateFare, bind, gets. simpl.
  apply andb_false_iff in Hg as [->| ->]; simpl; [done|].
  by rewrite orb_true_r.
Qed.

Lemma handleEstimateFare_needs_both_places_witness :
  let w := World RideStore.initial
                 (LocationStore.setPickupLocation
                    (Scenario.place "Main St" 40.0 (-74.0)) LocationStore.initial)
                 SocketService.initial [] BookRide.initial in
  trace (exec (BookRide.handleEstimateFare Scenario.accepting) w) = [].
Proof.
  intros w.
  by rewrite (handleEstimateFare_needs_both_places Scenario.accepting w eq_refl).
Defined.

(** X12: with both places chosen, [handleEstimateFare] posts their
    coordinates once.  When the backend answers with an object the fare
    shown is its [estimated_fare] and the page moves to step 2; when the
    backend refuses, the fare and the step stay as they were and the
    error is logged.  Either way the stores are untouched. *)
Theorem handleEstimateFare_outcome api (w : world BookRide.state) pickup dropoff :
  LocationStore.pickupLocation (locationStore w) = JObj pickup →
  LocationStore.dropoffLocation (locationStore w) = JObj dropoff →
  let w' := exec (BookRide.handleEstimateFare api) w in
  rideStore w' = rideStore w
  ∧ locationStore w' = locationStore w
  ∧ match api (estimate_request pickup dropoff) with
    | Fulfilled (Response (JObj answer)) =>
        BookRide.estimatedFare (page w') = prop "estimated_fare" answer
        ∧ BookRide.step (page w') = 2
        ∧ trace w' = trace w ++ [Called (estimate_request pickup dropoff)]
    | Fulfilled _ => True
    | Rejected e =>
        BookRide.estimatedFare (page w') = BookRide.estimatedFare (page w)
        ∧ BookRide.step (page w') = BookRide.step (page w)
        ∧ trace w' = trace w ++ [Called (estimate_request pickup dropoff);
                                 ConsoleError "Failed to estimate fare:" e]
    end.
Proof.
  intros Hp Hd w'. subst w'.
  unfold exec, BookRide.handleEstimateFare, rideService.estimateFare, bind, gets,
    try_finally, try_catch, api_call, modify, console_error, record.
  simpl. rewrite Hp, Hd. simpl.
  unfold estimate_request.
  destruct (api _) as [[answer]|e]; simpl.
  - destruct answer; simpl; done.
  - by rewrite <- app_assoc.
Qed.

Lemma handleEstimateFare_outcome_witness :
  BookRide.step (page (exec (BookRide.handleEstimateFare Scenario.unreachable)
                            Scenario.booking))
  = 2
  ∧ rideStore (exec (BookRide.handleEstimateFare Scenario.unreachable) Scenario.booking)
    = Scenario.completed_store.
Proof.
  pose proof (handleEstimateFare_outcome Scenario.unreachable Scenario.booking
                _ _ eq_refl eq_refl) as (Hr & _ & Hrest).
  simpl in Hrest. destruct Hrest as (_ & Hstep & _).
  split; [exact Hstep | exact Hr].
Defined.

(** X13: when the pickup or the dropoff place is [null] or [undefined],
    [handleConfirmBooking] sends nothing: reading the place throws, the
    error is logged, and the ride store is as before. *)
Theorem handleConfirmBooking_without_place number_to_string api (w : world BookRide.state) :
  nullish (LocationStore.pickupLocation (locationStore w))
  || nullish (LocationStore.dropoffLocation (locationStore w)) = true →
  let w' := exec (BookRide.handleConfirmBooking number_to_string api) w in
  trace w' = trace w ++ [ConsoleError "Failed to book ride:" TypeError]
  ∧ rideStore w' = rideStore w.
Proof.
  intros Hn w'. subst w'.
  unfold exec, BookRide.handleConfirmBooking, bind, gets,
    try_finally, try_catch, modify, console_error, record.
  simpl.
  destruct (LocationStore.pickupLocation (locationStore w)) as [| |b|x|s|p];
    simpl in *; try done;
    destruct (LocationStore.dropoffLocation (locationStore w)) as [| |b'|x'|s'|d];
    simpl in *; done.
Qed.

Lemma handleConfirmBooking_without_place_witness :
  let w := World Scenario.completed_store LocationStore.initial
                 SocketService.initial [] BookRide.initial in
  rideStore (exec (BookRide.handleConfirmBooking (fun _ => "0") Scenario.accepting) w)
  = Scenario.completed_store.
Proof.
  intros w.
  exact (proj2 (handleConfirmBooking_without_place (fun _ => "0") Scenario.accepting
                  w eq_refl)).
Defined.

(** X14: with both places chosen and the backend answering with a ride
    object, [handleConfirmBooking] posts the two places once, makes the
    returned ride the current ride of the store and navigates to the
    tracking page of the ride's id. *)
Theorem handleConfirmBooking_books number_to_string api (w : world BookRide.state)
    pickup dropoff ride :
  LocationStore.pickupLocation (locationStore w) = JObj pickup →
  LocationStore.dropoffLocation (locationStore w) = JObj dropoff →
  api (booking_request pickup dropoff) = Fulfilled (Response (JObj ride)) →
  let w' := exec (BookRide.handleConfirmBooking number_to_string api) w in
  RideStore.currentRide (rideStore w') = JObj ride
  ∧ RideStore.rideHistory (rideStore w') = RideStore.rideHistory (rideStore w)
  ∧ trace w'
    = trace w
      ++ [Called (booking_request pickup dropoff);
          Navigated ("/ride/" +:+ to_string number_to_string (prop "id" ride))].
Proof.
  intros Hp Hd Hapi w'. subst w'.
  unfold exec, BookRide.handleConfirmBooking, rideService.requestRide, bind, gets,
    try_finally, try_catch, api_call, modify, navigate, record.
  simpl. rewrite Hp, Hd. simpl.
  unfold booking_request in Hapi. rewrite Hapi. simpl.
  by rewrite <- app_assoc.
Qed.

Lemma handleConfirmBooking_books_witness :
  let api : backend :=
    fun _ => Fulfilled (Response (Scenario.ride_42 RIDE_STATUS.REQUESTED)) in
  RideStore.currentRide
    (rideStore (exec (BookRide.handleConfirmBooking (fun _ => "0") api) Scenario.booking))
  = Scenario.ride_42 RIDE_STATUS.REQUESTED
  ∧ last (trace (exec (BookRide.handleConfirmBooking (fun _ => "0") api) Scenario.booking))
    = Some (Navigated "/ride/42").
Proof.
  intros api.
  pose proof (handleConfirmBooking_books (fun _ => "0") api Scenario.booking
                _ _ _ eq_refl eq_refl eq_refl) as (Hc & _ & Ht).
  split; [exact Hc|]. rewrite Ht. reflexivity.
Defined.

End BookingMore.

(* ===================================================================== *)
(** ** More on the ride pages *)
(* ===================================================================== *)

#[local] Hint Extern 1 (preserves _ (api_call _ _)) =>
  (apply preserves_api_call; intros; reflexivity) : frame.

Section RidePagesMore.
Import RIDE_STATUS.

(** X15: [handleStartRide] marks the page's ride as in progress, keeping
    its other properties, only after the backend accepted the start; when
    the backend refuses, the page is as before and the error is logged.
    It never touches the ride store and never navigates. *)
Theorem handleStartRide_outcome api rideId (w : world AcceptRide.state) :
  let w' := exec (AcceptRide.handleStartRide api rideId) w in
  let call := Request POST ("/rides/" +:+ rideId +:+ "/start") None in
  rideStore w' = rideStore w
  ∧ match api call with
    | Fulfilled _ =>
        AcceptRide.ride (page w')
        = JObj (<["status" := JStr IN_PROGRESS]> (spread (AcceptRide.ride (page w))))
        ∧ AcceptRide.loading (page w') = AcceptRide.loading (page w)
        ∧ trace w' = trace w ++ [Called call]
    | Rejected e =>
        page w' = page w
        ∧ trace w' = trace w ++ [Called call; ConsoleError "Failed to start ride:" e]
    end.
Proof.
  intros w' call. subst w' call.
  unfold exec, AcceptRide.handleStartRide, rideService.startRide, bind, gets,
    try_catch, api_call, modify, console_error, record.
  simpl. destruct (api _); simpl; [done|].
  by rewrite <- app_assoc.
Qed.

(** X16: when the backend refuses the status call, [loadRideDetails]
    keeps the ride (and, on the tracking page, the driver) the page had
    and logs the error; when it answers with an object, the page shows
    the answer's [ride] (and [driver]). *)
Theorem loadRideDetails_outcome api rideId
    (w1 : world RideTracking.state) (w2 : world AcceptRide.state) :
  let call := Request GET ("/rides/" +:+ rideId +:+ "/status") None in
  let w1' := exec (RideTracking.loadRideDetails api rideId) w1 in
  let w2' := exec (AcceptRide.loadRideDetails api rideId) w2 in
  match api call with
  | Fulfilled (Response (JObj answer)) =>
      RideTracking.ride (page w1') = prop "ride" answer
      ∧ RideTracking.driver (page w1') = prop "driver" answer
      ∧ AcceptRide.ride (page w2') = prop "ride" answer
      ∧ trace w1' = trace w1 ++ [Called call]
  | Fulfilled _ => True
  | Rejected e =>
      RideTracking.ride (page w1') = RideTracking.ride (page w1)
      ∧ RideTracking.driver (page w1') = RideTracking.driver (page w1)
      ∧ AcceptRide.ride (page w2') = AcceptRide.ride (page w2)
      ∧ trace w1' = trace w1 ++ [Called call; ConsoleError "Failed to load ride:" e]
  end.
Proof.
  intros call w1' w2'. subst call w1' w2'.
  unfold exec, RideTracking.loadRideDetails, AcceptRide.loadRideDetails,
    rideService.getRideStatus, bind, try_finally, try_catch, api_call, modify,
    console_error, record.
  simpl. destruct (api _) as [[answer]|e]; simpl.
  - destruct answer; simpl; done.
  - by rewrite <- app_assoc.
Qed.

(** X17: an update from the ride topic overrides the properties it
    carries and keeps the others; the same update a second time changes
    nothing; and the update lands in the page's copy of the ride only,
    never in the ride store. *)
Theorem ride_update_merges data k (w : world RideTracking.state) :
  let w' := exec (RideTracking.on_ride_update data) w in
  RideTracking.ride (page w') = JObj (spread data ∪ spread (RideTracking.ride (page w)))
  ∧ (spread data ∪ spread (RideTracking.ride (page w))) !! k
    = match spread data !! k with
      | Some v => Some v
      | None => spread (RideTracking.ride (page w)) !! k
      end
  ∧ exec (RideTracking.on_ride_update data) w' = w'
  ∧ rideStore w' = rideStore w.
Proof.
  intros w'. subst w'. split; [done|]. split; [|split; [|done]].
  - rewrite lookup_union. by destruct (spread data !! k), (spread _ !! k).
  - unfold exec, RideTracking.on_ride_update, modify, with_page,
      RideTracking.setRide. simpl.
    by rewrite (assoc_L (∪)), (idemp_L (∪)).
Qed.

(** X18: of the handlers, effects and listeners of the pages only
    [handleConfirmBooking] writes the ride store: the fare estimate, the
    loading of ride details, the subscription effect and its cleanup, the
    listeners of the ride and driver topics, the cancel confirmation, the
    socket hook, the geolocation callbacks and the cancel, start and
    complete handlers all end with the ride store they started with,
    whatever the backend answers. *)
Theorem rideStore_has_one_writer number_to_string api rideId ride data delivery
    isAuthenticated token :
  preserves rideStore (BookRide.handleEstimateFare api)
  ∧ preserves rideStore (RideTracking.loadRideDetails api rideId)
  ∧ preserves rideStore (AcceptRide.loadRideDetails api rideId)
  ∧ preserves rideStore (RideTracking.subscribe number_to_string rideId)
  ∧ preserves rideStore (RideTracking.unmount number_to_string rideId ride)
  ∧ preserves rideStore (RideTracking.on_ride_update data)
  ∧ preserves rideStore (RideTracking.on_driver_location data)
  ∧ preserves rideStore RideTracking.open_confirmation
  ∧ preserves rideStore (@useSocket.effect RideTracking.state isAuthenticated token)
  ∧ preserves rideStore (@useSocket.cleanup RideTracking.state)
  ∧ preserves rideStore (useGeolocation.deliver delivery)
  ∧ preserves rideStore (RideTracking.handleCancelRide api rideId)
  ∧ preserves rideStore (AcceptRide.handleStartRide api rideId)
  ∧ preserves rideStore (AcceptRide.handleCompleteRide api rideId).
Proof.
  repeat apply conj.
  - unfold BookRide.handleEstimateFare, rideService.estimateFare.
    auto 20 with frame.
  - unfold RideTracking.loadRideDetails, rideService.getRideStatus.
    auto 20 with frame.
  - unfold AcceptRide.loadRideDetails, rideService.getRideStatus.
    auto 20 with frame.
  - unfold RideTracking.subscribe. auto 20 with frame.
  - unfold RideTracking.unmount, RideTracking.unsubscribe. auto 20 with frame.
  - unfold RideTracking.on_ride_update. auto with frame.
  - unfold RideTracking.on_driver_location. auto with frame.
  - unfold RideTracking.open_confirmation. auto with frame.
  - unfold useSocket.effect. auto with frame.
  - unfold useSocket.cleanup. auto with frame.
  - destruct delivery; unfold useGeolocation.deliver, useGeolocation.on_position,
      useGeolocation.on_error; auto 20 with frame.
  - apply handleCancelRide_keeps_rideStore.
  - apply handleStartRide_keeps_rideStore.
  - apply handleCompleteRide_keeps_rideStore.
Qed.

Lemma transport_handlers_on topic other h s :
  Transport.handlers_of other (Transport.on topic h s)
  = Transport.handlers_of other s ++ (if String.eqb topic other then [h] else []).
Proof.
  unfold Transport.handlers_of, Transport.on. simpl.
  rewrite filter_app, map_app. f_equal.
  rewrite filter_cons. simpl.
  by destruct (String.eqb topic other).
Qed.

(** X19: the cleanup of the tracking page's subscription effect undoes
    the effect: afterwards the ride topic and the driver topic have no
    listener, and every other event has the listeners it had before the
    page subscribed. *)
Theorem subscribe_then_unsubscribe number_to_string rideId other
    (w : world RideTracking.state) :
  let ride := RideTracking.ride (page w) in
  let w' := exec (RideTracking.unsubscribe number_to_string rideId ride)
                 (exec (RideTracking.subscribe number_to_string rideId) w) in
  other ≠ RideTracking.ride_topic rideId →
  other ≠ RideTracking.driver_topic number_to_string ride →
  SocketService.handlers_of (RideTracking.ride_topic rideId) (socketService w') = []
  ∧ SocketService.handlers_of (RideTracking.driver_topic number_to_string ride)
      (socketService w')
    = []
  ∧ SocketService.handlers_of other (socketService w')
    = SocketService.handlers_of other (socketService w).
Proof.
  intros ride w' Hr Hd. subst w' ride.
  unfold exec, RideTracking.unsubscribe, RideTracking.subscribe, bind, gets, modify.
  simpl. unfold SocketService.handlers_of.
  set (rt := RideTracking.ride_topic rideId) in *.
  set (dt := RideTracking.driver_topic number_to_string
               (RideTracking.ride (page w))) in *.
  destruct (SocketService.current (socketService w)) as [s|] eqn:Hs.
  - rewrite (off_current dt _ _
               (off_current rt _ _
                  (on_current dt DriverLocation _ _
                     (on_current rt RideUpdate _ _ Hs)))).
    rewrite !transport_handlers_off, !transport_handlers_on.
    rewrite !String.eqb_refl.
    destruct (String.eqb_spec other dt) as [?|_]; [done|].
    destruct (String.eqb_spec other rt) as [?|_]; [done|].
    destruct (String.eqb_spec rt other) as [?|_]; [done|].
    destruct (String.eqb_spec dt other) as [?|_]; [done|].
    rewrite !app_nil_r.
    by destruct (String.eqb rt dt).
  - rewrite (on_dangling rt _ _ Hs), (on_dangling dt _ _ Hs),
      (off_dangling rt _ Hs), (off_dangling dt _ Hs), Hs.
    done.
Qed.

Lemma subscribe_then_unsubscribe_witness :
  let w := World RideStore.initial LocationStore.initial Scenario.connected []
                 RideTracking.initial in
  "connect" ≠ RideTracking.ride_topic "42"
  ∧ SocketService.handlers_of "connect"
      (socketService
         (exec (RideTracking.unsubscribe (fun _ => "0") "42" JNull)
               (exec (RideTracking.subscribe (fun _ => "0") "42") w)))
    = [LogConnected].
Proof.
  intros w.
  assert (H1 : "connect" ≠ RideTracking.ride_topic "42") by discriminate.
  assert (H2 : "connect" ≠ RideTracking.driver_topic (fun _ => "0") JNull)
    by discriminate.
  split; [exact H1|].
  pose proof (subscribe_then_unsubscribe (fun _ => "0") "42" "connect" w H1 H2)
    as (_ & _ & Hother).
  exact (eq_trans Hother eq_refl).
Defined.

End RidePagesMore.

(* ===================================================================== *)
(** ** More on the geolocation watch and the place picker *)
(* ===================================================================== *)

Section LocationMore.
Import useGeolocation Edge PlaceSelection.

(** X20: failed readings do not disturb the stored location: after any
    mix of readings and failures the store holds the coordinates of the
    last reading that succeeded (what it held before, if none did); the
    hook's error is the message of the last delivery if that was a
    failure and [null] if it was a reading, and loading is over after
    the first delivery. *)
Theorem deliveries_keep_last_reading ds w :
  LocationStore.currentLocation (locationStore (deliver_all ds w))
  = match last (readings ds) with
    | Some p => located p
    | None => LocationStore.currentLocation (locationStore w)
    end
  ∧ match last ds with
    | Some (Reading _) =>
        error (page (deliver_all ds w)) = JNull
        ∧ loading (page (deliver_all ds w)) = false
    | Some (Failure message) =>
        error (page (deliver_all ds w)) = message
        ∧ loading (page (deliver_all ds w)) = false
    | None => True
    end.
Proof.
  induction ds as [|d ds IH] using rev_ind; [done|].
  destruct IH as [IH _].
  unfold readings in *. rewrite omap_app, last_snoc.
  unfold deliver_all in *. rewrite foldl_app. simpl.
  destruct d as [p|message]; simpl.
  - by rewrite last_snoc.
  - by rewrite app_nil_r.
Qed.

(** X21: choosing a suggestion has an effect only when the geocoder
    answers OK with at least one result: then the first result's
    coordinates go to [onLocationSelect] under the suggestion's
    description, the input shows the description and the suggestions
    close.  In every other case nothing is selected and the component is
    unchanged. *)
Theorem on_geocoded_outcome place results status e :
  match on_geocoded place results status e with
  | (Some chosen, e') =>
      status = "OK"
      ∧ (∃ location, head results = Some location ∧ chosen = selected place location)
      ∧ LocationPicker.suggestions e' = []
      ∧ LocationPicker.query e' = LocationPicker.description place
  | (None, e') => e' = e ∧ (status ≠ "OK" ∨ results = [])
  end.
Proof.
  unfold on_geocoded.
  destruct (String.eqb_spec status "OK") as [->|Hne].
  - destruct results as [|location rest]; [by split; [|right]|].
    repeat split; eauto.
  - by split; [|left].
Qed.

(** X22: the places chosen in the two pickers are the places booked:
    after an OK geocoding of the pickup and of the dropoff suggestion,
    [handleConfirmBooking] posts the pickup's description and coordinates
    as [pickup_address], [pickup_latitude] and [pickup_longitude], and the
    dropoff's as the three [destination_] fields. *)
Theorem chosen_places_are_booked number_to_string api
    from from_at from_rest to to_at to_rest e1 e2 (w : world BookRide.state) :
  let chosen_from := fst (on_geocoded from (from_at :: from_rest) "OK" e1) in
  let chosen_to := fst (on_geocoded to (to_at :: to_rest) "OK" e2) in
  let w0 := with_locationStore
              (fun st => pick_dropoff chosen_to (pick_pickup chosen_from st)) w in
  trace (exec (BookRide.handleConfirmBooking number_to_string api) w0)
    !! length (trace w)
  = Some (Called
            (Request POST "/rides/request"
               (Some (JObj (<["pickup_latitude" := JNum (lat from_at)]>
                           (<["pickup_longitude" := JNum (lng from_at)]>
                           (<["pickup_address" := JStr (LocationPicker.description from)]>
                           (<["destination_latitude" := JNum (lat to_at)]>
                           (<["destination_longitude" := JNum (lng to_at)]>
                           (<["destination_address" :=
                                JStr (LocationPicker.description to)]> ∅)))))))))).
Proof.
  intros chosen_from chosen_to w0. subst chosen_from chosen_to w0.
  unfold exec, BookRide.handleConfirmBooking, rideService.requestRide, bind, gets,
    try_finally, try_catch, api_call, modify, navigate, console_error, record.
  simpl.
  destruct (api _) as [[ride]|err]; simpl.
  - destruct ride; simpl;
      rewrite <- ?app_assoc; simpl; by apply list_lookup_middle.
  - rewrite <- ?app_assoc. simpl. by apply list_lookup_middle.
Qed.

End LocationMore.

(* ===================================================================== *)
(** ** Routes *)
(* ===================================================================== *)

Section RouteFacts.
Import App.

Lemma includes_singleton role v :
  includes [role] v = true → v = JStr role.
Proof.
  destruct v as [| |b|x|s|f]; simpl; try done.
  rewrite orb_false_r. by intros ->%String.eqb_eq.
Qed.

Lemma guard_is_one_role r roles :
  guard r = Some roles → roles = ["passenger"] ∨ roles = ["driver"].
Proof. destruct r; simpl; intros [= <-]; auto. Qed.

(** X23: a visitor who is not signed in ends on the login page from
    every protected route, after one redirect; the login and register
    pages are shown to anyone. *)
Theorem signed_out_lands_on_login redirects user r :
  visit (S redirects) false user r
  = Show (match guard r with
          | Some _ => Login
          | None => page_of r
          end).
Proof. destruct r, redirects; reflexivity. Qed.

(** X24: a protected page is shown only to a signed-in user whose
    [user_type] is exactly the one role of its route: the passenger
    pages to passengers, the driver pages to drivers. *)
Theorem shown_page_matches_role isAuthenticated user r p :
  element_of isAuthenticated user r = Show p →
  p = page_of r
  ∧ match guard r with
    | Some roles =>
        isAuthenticated = true
        ∧ ∃ role, roles = [role]
                  ∧ member_opt user "user_type" = JStr role
                  ∧ (role = "passenger" ∨ role = "driver")
    | None => True
    end.
Proof.
  unfold element_of, ProtectedRoute.
  destruct (guard r) as [roles|] eqn:Hg; [|by intros [= <-]].
  destruct isAuthenticated; simpl; [|done].
  destruct (includes roles (member_opt user "user_type")) eqn:Hin; simpl; [|done].
  intros [= <-]. split; [done|]. split; [done|].
  destruct (guard_is_one_role _ _ Hg) as [-> | ->].
  - exists "passenger". by rewrite (includes_singleton _ _ Hin); auto.
  - exists "driver". by rewrite (includes_singleton _ _ Hin); auto.
Qed.

Lemma shown_page_matches_role_witness :
  let driver : jsval := JObj (<["user_type" := JStr "driver"]> ∅) in
  element_of true driver at_driver_ride = Show AcceptRide
  ∧ AcceptRide = page_of at_driver_ride.
Proof.
  intros driver. split; [reflexivity|].
  exact (proj1 (shown_page_matches_role true driver at_driver_ride AcceptRide eq_refl)).
Defined.

(** X25: a signed-in user who is not a passenger and opens a route that
    refuses them is sent to "/", the passenger home, which refuses them
    again: however many redirects are followed, no page is shown. *)
Theorem refused_user_never_lands redirects user r roles :
  includes ["passenger"] (member_opt user "user_type") = false →
  guard r = Some roles →
  includes roles (member_opt user "user_type") = false →
  visit redirects true user r = NavigateTo "/".
Proof.
  intros Hp Hg Hr.
  assert (Hhome : ∀ n, visit n true user at_home = NavigateTo "/").
  { induction n as [|n IH]; simpl; unfold element_of, ProtectedRoute; simpl;
      rewrite Hp; simpl; [done|exact IH]. }
  destruct redirects as [|n]; simpl; unfold element_of, ProtectedRoute;
    rewrite Hg; simpl; rewrite Hr; simpl; [done|apply Hhome].
Qed.

Lemma refused_user_never_lands_witness :
  let driver : jsval := JObj (<["user_type" := JStr "driver"]> ∅) in
  includes ["passenger"] (member_opt driver "user_type") = false
  ∧ visit 5 true driver at_book_ride = NavigateTo "/".
Proof.
  intros driver. split; [reflexivity|].
  exact (refused_user_never_lands 5 driver at_book_ride ["passenger"]
           eq_refl eq_refl eq_refl).
Defined.

End RouteFacts.

(* ===================================================================== *)
(** ** Signing in, signing out and registering *)
(* ===================================================================== *)

Section AuthFacts.
Context {S : Type} (store_login : jsval → jsval → S → S) (store_logout : S → S).
Import Edge Promises.

(** X26: when the login call is refused, [handleLogin] opens no socket
    and leaves the auth store alone; it answers [success: false] with the
    message of the error's response, or "Login failed" when there is none. *)
Theorem handleLogin_refused error (w : world S) :
  nullish error = false →
  let message := member_opt (member_opt (member_opt error "response") "data") "message" in
  useAuth.handleLogin store_login (Rejected error) w
  = (Fulfilled (useAuth.failed (if truthy message then message else JStr "Login failed")),
     w).
Proof.
  intros Hn message. subst message.
  unfold useAuth.handleLogin, try_catch, bind, settle, message_or, ret.
  simpl. by destruct error.
Qed.

Lemma handleLogin_accepted answer (w : world S) :
  useAuth.handleLogin store_login (Fulfilled (JObj answer)) w
  = (Fulfilled useAuth.succeeded,
     with_socketService
       (fun s => snd (SocketService.connect (prop "token" answer) s))
       (with_page (store_login (prop "user" answer) (prop "token" answer)) w)).
Proof. reflexivity. Qed.

(** X27: a login the backend accepts opens one socket with the returned
    token and records the user; the logout that follows, once the backend
    accepts it, closes that socket again: the open sockets are those from
    before the login, the service points at none, and the auth store saw
    [login] and then [logout].  A logout the backend refuses only logs
    the error: the socket stays open and the auth store stays signed in. *)
Theorem login_then_logout answer left error (w : world S) :
  let signed_in := exec (useAuth.handleLogin store_login (Fulfilled (JObj answer))) w in
  let signed_out :=
    exec (useAuth.handleLogout store_logout (Fulfilled left)) signed_in in
  (Transport.auth_token <$> SocketService.current (socketService signed_in))
  = Some (prop "token" answer)
  ∧ SocketService.active (socketService signed_in)
    = SocketService.active (socketService w)
      ++ [Transport.on "disconnect" LogDisconnected
            (Transport.on "connect" LogConnected
               (Transport.fresh (prop "token" answer)))]
  ∧ SocketService.active (socketService signed_out)
    = SocketService.active (socketService w)
  ∧ SocketService.socket (socketService signed_out) = None
  ∧ page signed_out
    = store_logout (store_login (prop "user" answer) (prop "token" answer) (page w))
  ∧ exec (useAuth.handleLogout store_logout (Rejected error)) signed_in
    = record (ConsoleError "Logout error:" error) signed_in.
Proof.
  intros signed_in signed_out. subst signed_in signed_out.
  cut (exec (useAuth.handleLogout store_logout (Rejected error))
            (exec (useAuth.handleLogin store_login (Fulfilled (JObj answer))) w)
       = record (ConsoleError "Logout error:" error)
           (exec (useAuth.handleLogin store_login (Fulfilled (JObj answer))) w));
    [intros ->|reflexivity].
  unfold exec. rewrite handleLogin_accepted.
  unfold useAuth.handleLogout, try_catch, bind, settle, modify, ret,
    with_socketService, with_page.
  cbn [fst snd socketService page rideStore locationStore trace].
  rewrite connect_sockets.
  unfold SocketService.current, SocketService.active, SocketService.disconnect,
    SocketService.on_this.
  cbn [SocketService.socket SocketService.sockets].
  rewrite alter_last, list_lookup_middle by done.
  rewrite !filter_app.
  rewrite (filter_cons_False _ (Transport.disconnect _)) by (simpl; intros []).
  rewrite filter_cons_True by done.
  by rewrite filter_nil, app_nil_r.
Qed.

End AuthFacts.

Lemma handleLogin_refused_witness :
  let error : jsval :=
    JObj (<["response" :=
            JObj (<["data" := JObj (<["message" := JStr "Bad credentials"]> ∅)]> ∅)]> ∅) in
  Edge.nullish error = false
  ∧ fst (useAuth.handleLogin (fun _ _ (s : unit) => s) (Rejected error)
           (World RideStore.initial LocationStore.initial Scenario.connected [] tt))
    = Fulfilled (useAuth.failed (JStr "Bad credentials")).
Proof.
  intros error. split; [reflexivity|].
  rewrite (handleLogin_refused (fun _ _ (s : unit) => s) error _ eq_refl).
  reflexivity.
Defined.

Section RegisterFacts.
Import Edge Promises Register.


End RegisterFacts.
